(** * The in-memory user store of the "HTTP API Server with Variable
      Management" example (src/variables/go_variables_complete.md, lines
      1421-1723), embedded in Rocq.

    The Go program keeps [map[int]*User]: the store holds _pointers_ to
    [User] objects.  The embedding therefore has an explicit heap of
    [User] objects and the map stores locations, so that sharing between
    the caller's objects, the map and the slices handed out by
    [getAllUsers] is visible.  Every method runs under the server's
    [sync.RWMutex] from its first to its last statement, so each method
    is one atomic transition of the world; the lock itself has no other
    observable effect and is not represented.

    [time.Now()] is modelled as a monotonic clock: every reading advances
    the clock by a non-negative amount chosen by the environment.

    [range] over a Go map visits the entries in an unspecified order that
    may differ from one loop to the next; every loop over the map takes
    the visiting order as an argument, constrained to be a permutation of
    the map's entries. *)

From stdpp Require Import gmap strings list fin_maps sorting.

Open Scope Z_scope.

(** ** Go's [int] (64 bit, two's complement, silent wrap-around) *)

Module GoInt.

Definition int_min : Z := - 2 ^ 63.
Definition int_max : Z := 2 ^ 63 - 1.

Definition wrap (z : Z) : Z := (z + 2 ^ 63) `mod` 2 ^ 64 - 2 ^ 63.

(** [x++] *)
Definition incr (x : Z) : Z := wrap (x + 1).

End GoInt.

(** ** [time.Time] and [time.Duration] (nanoseconds) *)

Module GoTime.

Definition Second : Z := 1000000000.

(** [time.Now()]: the clock moves forward by [d] and the new reading is
    returned. *)
Definition Now (d : N) (clock : Z) : Z := clock + Z.of_N d.

(** [t.Sub(u)]: a [Duration] is an int64 and [Sub] saturates. *)
Definition Sub (t u : Z) : Z := Z.max GoInt.int_min (Z.min GoInt.int_max (t - u)).

End GoTime.

(** ** Data *)

Abbreviation loc := positive (only parsing).

(** A [*User]: [None] is Go's [nil]. *)
Abbreviation ptr := (option positive) (only parsing).

Record User : Type := mkUser {
  ID : Z;
  Name : string;
  Email : string;
  Status : string;
  CreatedAt : Z;
  UpdatedAt : Z
}.

Definition set_ID (v : Z) (u : User) : User :=
  mkUser v (Name u) (Email u) (Status u) (CreatedAt u) (UpdatedAt u).
Definition set_Name (v : string) (u : User) : User :=
  mkUser (ID u) v (Email u) (Status u) (CreatedAt u) (UpdatedAt u).
Definition set_Email (v : string) (u : User) : User :=
  mkUser (ID u) (Name u) v (Status u) (CreatedAt u) (UpdatedAt u).
Definition set_Status (v : string) (u : User) : User :=
  mkUser (ID u) (Name u) (Email u) v (CreatedAt u) (UpdatedAt u).
Definition set_CreatedAt (v : Z) (u : User) : User :=
  mkUser (ID u) (Name u) (Email u) (Status u) v (UpdatedAt u).
Definition set_UpdatedAt (v : Z) (u : User) : User :=
  mkUser (ID u) (Name u) (Email u) (Status u) (CreatedAt u) v.

Record Server : Type := mkServer {
  users : gmap Z (option positive);
  nextID : Z;
  host : string;
  port : Z;
  timeout : Z;
  started : Z
}.

Record ServerStats : Type := mkServerStats {
  TotalUsers : Z;
  ActiveUsers : Z;
  InactiveUsers : Z;
  Uptime : Z;
  StartedAt : Z
}.

(** The world a method runs in: the heap of [User] objects, the clock and
    the (single) server object. *)
Record World : Type := mkWorld {
  heap : gmap positive User;
  clock : Z;
  server : Server
}.

Definition with_users (m : gmap Z (option positive)) (s : Server) : Server :=
  mkServer m (nextID s) (host s) (port s) (timeout s) (started s).
Definition with_nextID (n : Z) (s : Server) : Server :=
  mkServer (users s) n (host s) (port s) (timeout s) (started s).

(** ** Heap access through a pointer; [None] is the nil-dereference panic *)

Definition deref (h : gmap positive User) (p : ptr) : option User :=
  l ← p; h !! l.

(** [p.field = v], with [f] the field update. *)
Definition assign (p : ptr) (f : User → User) (h : gmap positive User)
  : option (gmap positive User) :=
  l ← p; u ← h !! l; Some (<[l := f u]> h).

(** ** The methods of [Server] *)

(** [NewServer(host, port)]; the heap is whatever the program has
    allocated so far. *)
Definition NewServer (d : N) (host : string) (port : Z)
    (h : gmap positive User) (c : Z) : World :=
  let now := GoTime.Now d c in
  mkWorld h now (mkServer ∅ 1 host port (30 * GoTime.Second) now).

Definition createUser (d1 d2 : N) (user : ptr) (w : World)
  : option (ptr * World) :=
  let s := server w in
  (* user.ID = s.nextID *)
  h1 ← assign user (set_ID (nextID s)) (heap w);
  (* s.nextID++ *)
  let n' := GoInt.incr (nextID s) in
  (* user.CreatedAt = time.Now() *)
  let t1 := GoTime.Now d1 (clock w) in
  h2 ← assign user (set_CreatedAt t1) h1;
  (* user.UpdatedAt = time.Now() *)
  let t2 := GoTime.Now d2 t1 in
  h3 ← assign user (set_UpdatedAt t2) h2;
  (* if user.Status == "" { user.Status = "active" } *)
  u ← deref h3 user;
  h4 ← (if decide (Status u = "") then assign user (set_Status "active") h3
        else Some h3);
  (* s.users[user.ID] = user *)
  u' ← deref h4 user;
  Some (user, mkWorld h4 t2 (with_users (<[ID u' := user]> (users s)) (with_nextID n' s))).

Definition getUser (id : Z) (w : World) : (ptr * bool) * World :=
  match users (server w) !! id with
  | Some user => ((user, true), w)
  | None => ((None, false), w)
  end.

(** The entries of the map in the order a [range] loop visits them. *)
Definition range_order (m : gmap Z (option positive))
    (order : list (Z * option positive)) : Prop :=
  order ≡ₚ map_to_list m.

(** [users = append(users, user)] for every visited entry, starting from
    the empty slice. *)
Definition getAllUsers (order : list (Z * option positive)) (w : World)
  : list (option positive) * World :=
  (foldl (λ acc kv, acc ++ [kv.2]) [] order, w).

Definition updateUser (d : N) (id : Z) (updates : ptr) (w : World)
  : option ((ptr * bool) * World) :=
  match users (server w) !! id with
  | None => Some ((None, false), w)
  | Some user =>
      let h0 := heap w in
      up ← deref h0 updates;
      h1 ← (if decide (Name up ≠ "") then assign user (set_Name (Name up)) h0
            else Some h0);
      up ← deref h1 updates;
      h2 ← (if decide (Email up ≠ "") then assign user (set_Email (Email up)) h1
            else Some h1);
      up ← deref h2 updates;
      h3 ← (if decide (Status up ≠ "") then assign user (set_Status (Status up)) h2
            else Some h2);
      let now := GoTime.Now d (clock w) in
      h4 ← assign user (set_UpdatedAt now) h3;
      Some ((user, true), mkWorld h4 now (server w))
  end.

(** One iteration of the counting loop of [getStats]; the accumulator is
    [(activeCount, inactiveCount)]. *)
Definition count_user (h : gmap positive User) (acc : option (Z * Z))
    (kv : Z * option positive) : option (Z * Z) :=
  c ← acc;
  u ← deref h kv.2;
  if decide (Status u = "active") then Some (GoInt.incr c.1, c.2)
  else Some (c.1, GoInt.incr c.2).

Definition getStats (d : N) (order : list (Z * option positive)) (w : World)
  : option (ServerStats * World) :=
  c ← foldl (count_user (heap w)) (Some (0, 0)) order;
  let now := GoTime.Now d (clock w) in
  Some (mkServerStats (Z.of_nat (size (users (server w)))) c.1 c.2
          (GoTime.Sub now (started (server w))) (started (server w)),
        mkWorld (heap w) now (server w)).

(** ** Sequences of calls against one server *)

Inductive op : Type :=
  | OCreate (d1 d2 : N) (user : option positive)
  | OGet (id : Z)
  | OList (order : list (Z * option positive))
  | OUpdate (d : N) (id : Z) (updates : option positive)
  | OStats (d : N) (order : list (Z * option positive)).

Inductive result : Type :=
  | RUser (user : option positive)
  | RFound (user : option positive) (ok : bool)
  | RList (l : list (option positive))
  | RStats (st : ServerStats).

Definition exec (o : op) (w : World) : option (result * World) :=
  match o with
  | OCreate d1 d2 user =>
      r ← createUser d1 d2 user w; Some (RUser r.1, r.2)
  | OGet id =>
      let r := getUser id w in Some (RFound r.1.1 r.1.2, r.2)
  | OList order =>
      let r := getAllUsers order w in Some (RList r.1, r.2)
  | OUpdate d id updates =>
      r ← updateUser d id updates w; Some (RFound r.1.1 r.1.2, r.2)
  | OStats d order =>
      r ← getStats d order w; Some (RStats r.1, r.2)
  end.

(** The [ID] field of the user a [createUser] call returned, read when
    the call completes. *)
Definition created_id (o : op) (r : result) (w : World) : list Z :=
  match o, r with
  | OCreate _ _ _, RUser user =>
      match deref (heap w) user with
      | Some u => [ID u]
      | None => []
      end
  | _, _ => []
  end.

(** Runs the calls in order; returns the ids handed out by the
    [createUser] calls, in completion order, and the final world. *)
Fixpoint run (ops : list op) (w : World) : option (list Z * World) :=
  match ops with
  | [] => Some ([], w)
  | o :: ops' =>
      r ← exec o w;
      rest ← run ops' r.2;
      Some (created_id o r.1 r.2 ++ rest.1, rest.2)
  end.



(** ** What one call does to the object it is given *)

(** The user object after [createUser] assigned id [n] at times [t1], [t2]. *)
Definition created (n t1 t2 : Z) (u : User) : User :=
  mkUser n (Name u) (Email u)
    (if decide (Status u = "") then "active" else Status u) t1 t2.

(** The stored object after [updateUser] with the field values of [up]. *)
Definition updated (up : User) (now : Z) (u : User) : User :=
  mkUser (ID u)
    (if decide (Name up ≠ "") then Name up else Name u)
    (if decide (Email up ≠ "") then Email up else Email u)
    (if decide (Status up ≠ "") then Status up else Status u)
    (CreatedAt u) now.

(** ** Well-formed worlds *)

(** Every stored pointer is non-nil and points to a live object whose
    [UpdatedAt] is not in the future. *)
Definition valid (w : World) : Prop :=
  ∀ k p, users (server w) !! k = Some p →
    ∃ l u, p = Some l ∧ heap w !! l = Some u ∧ UpdatedAt u ≤ clock w.

(** [len(s.users)] is an [int]. *)
Definition len_fits (w : World) : Prop :=
  Z.of_nat (size (users (server w))) ≤ GoInt.int_max.

(** Every stored entity carries the key it is stored under. *)
Definition ids_match_keys (w : World) : Prop :=
  ∀ k p, users (server w) !! k = Some p →
    ∃ u, deref (heap w) p = Some u ∧ ID u = k.

(** The counter has not wrapped and is ahead of every key in use. *)
Definition counter_ahead (w : World) : Prop :=
  1 ≤ nextID (server w) ≤ GoInt.int_max ∧
  ∀ k, is_Some (users (server w) !! k) → 1 ≤ k < nextID (server w).

(** ** Allocation and the seeded server *)

(** [&User{Name: .., Email: .., Status: ..}]: the other fields are zero. *)
Definition new_User (name email status : string) : User :=
  mkUser 0 name email status 0 0.

Definition alloc (u : User) (h : gmap positive User) : positive * gmap positive User :=
  let l := fresh (dom h) in (l, <[l := u]> h).

Definition alloc_all (us : list User) (h : gmap positive User)
  : list (option positive) * gmap positive User :=
  foldl (λ acc u, let a := alloc u acc.2 in (acc.1 ++ [Some a.1], a.2)) ([], h) us.

(** [seedData]: allocates the three sample users and creates them in
    order; [tick i] is the advance of the clock before its [i]-th reading. *)
Definition seedData (tick : nat → N) (w : World) : option World :=
  let sampleUsers :=
    alloc_all [ new_User "Alice Johnson" "alice@company.com" "active";
                new_User "Bob Smith" "bob@company.com" "active";
                new_User "Carol Davis" "carol@company.com" "inactive" ]
              (heap w) in
  foldl (λ acc iu,
           w ← acc;
           r ← createUser (tick (2 * iu.1)%nat) (tick (2 * iu.1 + 1)%nat) iu.2 w;
           Some r.2)
        (Some (mkWorld sampleUsers.2 (clock w) (server w)))
        (zip (seq 0 (length sampleUsers.1)) sampleUsers.1).

(** The caller of [updateUser] decodes the request body into a local
    [User] and passes its address. *)
Definition with_object (u : User) (w : World) : positive * World :=
  let a := alloc u (heap w) in (a.1, mkWorld a.2 (clock w) (server w)).

Module Demo.

(** The server as [Start] leaves it after [seedData], every clock reading
    one nanosecond after the previous one. *)
Definition seeded : World :=
  default (NewServer 0 "localhost" 8080 ∅ 0)
          (seedData (λ _, 1%N) (NewServer 0 "localhost" 8080 ∅ 0)).

(** A request body that only sets [status]. *)
Definition deactivate : positive * World :=
  with_object (new_User "" "" "inactive") seeded.

(** A request body that sets nothing. *)
Definition blank : positive * World :=
  with_object (new_User "" "" "") seeded.

(** A new user with a caller-chosen id and no status. *)
Definition dave : positive * World :=
  with_object (mkUser 77 "Dave" "dave@company.com" "" 0 0) seeded.

(** The seeded server after one more user was created with status
    ["pending"]. *)
Definition with_pending : World :=
  let a := with_object (new_User "Dan" "dan@company.com" "pending") seeded in
  default seeded (snd <$> createUser 1 1 (Some a.1) a.2).

(** One freshly allocated user object next to a new, empty server. *)
Definition lone (status : string) : positive * World :=
  with_object (new_User "Eve" "eve@company.com" status)
              (NewServer 0 "localhost" 8080 ∅ 0).

(** A new server holding that single user. *)
Definition single (status : string) : World :=
  default (lone status).2
          (snd <$> createUser 1 1 (Some (lone status).1) (lone status).2).

End Demo.

(** ** Executable checks of the well-formedness predicates *)

Definition validb (w : World) : bool :=
  forallb (λ kv : Z * option positive,
             match kv.2 with
             | Some l =>
                 match heap w !! l with
                 | Some u => bool_decide (UpdatedAt u ≤ clock w)
                 | None => false
                 end
             | None => false
             end)
          (map_to_list (users (server w))).

(** No key of the map holds the pointer [p]. *)
Definition unstored (p : option positive) (w : World) : Prop :=
  ∀ k, users (server w) !! k ≠ Some p.

Definition unstoredb (p : option positive) (w : World) : bool :=
  forallb (λ kv : Z * option positive, bool_decide (kv.2 ≠ p))
          (map_to_list (users (server w))).

(** ** Counting by status *)

(** The status of the entity an entry of the map points to. *)
Definition status_of (h : gmap positive User) (kv : Z * option positive)
  : option string :=
  Status <$> deref h kv.2.

(** How many of the entries have status exactly ["active"], and how many
    have any other status. *)
Definition count_active (h : gmap positive User)
    (l : list (Z * option positive)) : nat :=
  length (filter (λ kv, status_of h kv = Some "active") l).

Definition count_other (h : gmap positive User)
    (l : list (Z * option positive)) : nat :=
  length (filter (λ kv, status_of h kv ≠ Some "active") l).

(** Spec-side definition, following the specification's words for
    [StatsAggregator.Compute]: the counts keyed by each distinct status
    observed, with no entry for a status that is not observed. *)
Definition spec_status_counts (w : World) : gmap string nat :=
  foldr (λ kv acc,
           match status_of (heap w) kv with
           | Some s => <[s := S (default 0%nat (acc !! s))]> acc
           | None => acc
           end)
        ∅ (map_to_list (users (server w))).

Definition len_fitsb (w : World) : bool :=
  bool_decide (Z.of_nat (size (users (server w))) ≤ GoInt.int_max).

(** ** Sequences of calls: the store invariant *)

(** What a caller must respect for a call to return and keep the store
    well formed: the candidate given to [createUser] is a live object the
    store does not hold yet, the change set given to [updateUser] for an
    existing id is not nil, and the loops visit the map in one of its
    iteration orders. *)
Definition call_ok (o : op) (w : World) : Prop :=
  match o with
  | OCreate _ _ user => is_Some (deref (heap w) user) ∧ unstored user w
  | OGet _ => True
  | OList order => range_order (users (server w)) order
  | OUpdate _ id updates =>
      is_Some (users (server w) !! id) → is_Some (deref (heap w) updates)
  | OStats _ order => range_order (users (server w)) order
  end.

Fixpoint calls_ok (ops : list op) (w : World) : Prop :=
  match ops with
  | [] => True
  | o :: ops' => call_ok o w ∧ ∀ r, exec o w = Some r → calls_ok ops' r.2
  end.



Definition store_inv (w : World) : Prop :=
  valid w ∧ ids_match_keys w ∧ counter_ahead w.


(** ** The HTTP handlers

    The handlers are the callers of the store.  What a handler does to
    its [http.ResponseWriter] is recorded as the list of calls it makes;
    [json.NewDecoder(r.Body).Decode] is an input of the request (the
    decoded [User], or [None] when it returns an error), and so are the
    error of the one [Encode] call whose result the code inspects,
    [strconv.Atoi] and the choice of handler made by the [http] mux. *)

Module http.

Definition MethodGet : string := "GET".
Definition MethodPost : string := "POST".
Definition MethodPut : string := "PUT".

Definition StatusCreated : Z := 201.
Definition StatusBadRequest : Z := 400.
Definition StatusNotFound : Z := 404.
Definition StatusMethodNotAllowed : Z := 405.
Definition StatusInternalServerError : Z := 500.

End http.

(** The value handed to [json.NewEncoder(w).Encode], read through the
    pointers at the time of the call ([None] is a nil pointer). *)
Inductive Payload : Type :=
  | JUser (u : option User)
  | JUsers (us : list (option User))
  | JStats (st : ServerStats).

Inductive Event : Type :=
  | SetHeader (key value : string)
  | WriteHeader (code : Z)
  | Encode (p : Payload)
  | Error (msg : string) (code : Z).

Record Request : Type := mkRequest {
  Method : string;
  Path : string;
  Body : option User
}.

(** What the environment decides while one request is handled: the
    advances of the clock, the order of the [range] loop, and whether the
    inspected [Encode] call returns an error. *)
Record Env : Type := mkEnv {
  env_tick1 : N;
  env_tick2 : N;
  env_order : list (Z * option positive);
  env_encode_fails : bool
}.

(** [s[n:]]; slicing beyond the end panics. *)
Definition slice_from (n : nat) (s : string) : option string :=
  if decide (n ≤ String.length s)%nat
  then Some (String.substring n (String.length s - n) s)
  else None.

(** A local whose address was taken is unreachable once the handler has
    returned, unless the store kept the pointer. *)
Definition drop_object (l : positive) (w : World) : World :=
  mkWorld (delete l (heap w)) (clock w) (server w).

Definition json_header : Event := SetHeader "Content-Type" "application/json".

Definition handleGetUsers (env : Env) (r : Request) (w : World)
  : option (list Event * World) :=
  let users := getAllUsers (env_order env) w in
  Some ([json_header; Encode (JUsers (deref (heap users.2) <$> users.1))]
        ++ (if env_encode_fails env
            then [Error "Failed to encode response" http.StatusInternalServerError]
            else []),
        users.2).

Definition handleCreateUser (env : Env) (r : Request) (w : World)
  : option (list Event * World) :=
  match Body r with
  | None => Some ([Error "Invalid JSON" http.StatusBadRequest], w)
  | Some user =>
      if decide (Name user = "" ∨ Email user = "")
      then Some ([Error "Name and email are required" http.StatusBadRequest], w)
      else
        let a := with_object user w in
        createdUser ← createUser (env_tick1 env) (env_tick2 env) (Some a.1) a.2;
        Some ([json_header; WriteHeader http.StatusCreated;
               Encode (JUser (deref (heap createdUser.2) createdUser.1))],
              createdUser.2)
  end.

Definition handleUsers (env : Env) (r : Request) (w : World)
  : option (list Event * World) :=
  if decide (Method r = http.MethodGet) then handleGetUsers env r w
  else if decide (Method r = http.MethodPost) then handleCreateUser env r w
  else Some ([Error "Method not allowed" http.StatusMethodNotAllowed], w).

Definition handleGetUser (env : Env) (r : Request) (id : Z) (w : World)
  : option (list Event * World) :=
  let found := getUser id w in
  if found.1.2
  then Some ([json_header; Encode (JUser (deref (heap found.2) found.1.1))],
             found.2)
  else Some ([Error "User not found" http.StatusNotFound], found.2).

Definition handleUpdateUser (env : Env) (r : Request) (id : Z) (w : World)
  : option (list Event * World) :=
  match Body r with
  | None => Some ([Error "Invalid JSON" http.StatusBadRequest], w)
  | Some updates =>
      let a := with_object updates w in
      res ← updateUser (env_tick1 env) id (Some a.1) a.2;
      if (res.1.2 : bool)
      then Some ([json_header; Encode (JUser (deref (heap res.2) res.1.1))],
                 drop_object a.1 res.2)
      else Some ([Error "User not found" http.StatusNotFound],
                 drop_object a.1 res.2)
  end.

Definition handleUserByID (Atoi : string → option Z)
    (env : Env) (r : Request) (w : World) : option (list Event * World) :=
  idStr ← slice_from (String.length "/users/") (Path r);
  match Atoi idStr with
  | None => Some ([Error "Invalid user ID" http.StatusBadRequest], w)
  | Some id =>
      if decide (Method r = http.MethodGet) then handleGetUser env r id w
      else if decide (Method r = http.MethodPut) then handleUpdateUser env r id w
      else Some ([Error "Method not allowed" http.StatusMethodNotAllowed], w)
  end.

Definition handleStats (env : Env) (r : Request) (w : World)
  : option (list Event * World) :=
  stats ← getStats (env_tick1 env) (env_order env) w;
  Some ([json_header; Encode (JStats stats.1)], stats.2).

(** The three routes [Start] registers. *)
Inductive Route : Type :=
  | ToUsers       (* "/users"  *)
  | ToUserByID    (* "/users/" *)
  | ToStats.      (* "/stats"  *)

Definition dispatch (Atoi : string → option Z) (route : Route)
    (env : Env) (r : Request) (w : World) : option (list Event * World) :=
  match route with
  | ToUsers => handleUsers env r w
  | ToUserByID => handleUserByID Atoi env r w
  | ToStats => handleStats env r w
  end.

(** Requests served one after the other. *)
Fixpoint serve (Atoi : string → option Z)
    (reqs : list (Route * Env * Request)) (w : World)
  : option (list (list Event) * World) :=
  match reqs with
  | [] => Some ([], w)
  | q :: reqs' =>
      r ← dispatch Atoi q.1.1 q.1.2 q.2 w;
      rest ← serve Atoi reqs' r.2;
      Some (r.1 :: rest.1, rest.2)
  end.

(** What the mux and the runtime guarantee for a request: a request
    routed to ["/users/"] has a path with that prefix, and a [range]
    loop, when the request runs one, visits the map in one of its
    iteration orders. *)
Definition request_ok (q : Route * Env * Request) (w : World) : Prop :=
  (q.1.1 = ToStats ∨ (q.1.1 = ToUsers ∧ Method q.2 = http.MethodGet) →
   range_order (users (server w)) (env_order q.1.2)) ∧
  (q.1.1 = ToUserByID →
   String.length "/users/" ≤ String.length (Path q.2))%nat.

Fixpoint requests_ok (Atoi : string → option Z)
    (reqs : list (Route * Env * Request)) (w : World) : Prop :=
  match reqs with
  | [] => True
  | q :: reqs' =>
      request_ok q w ∧
      ∀ r, dispatch Atoi q.1.1 q.1.2 q.2 w = Some r → requests_ok Atoi reqs' r.2
  end.

(** Nothing stored in [w] is lost or re-identified in [w']: every entry
    of the map is still there, with the same object, the same [ID] and
    the same [CreatedAt]. *)
Definition keeps_users (w w' : World) : Prop :=
  ∀ k l u, users (server w) !! k = Some (Some l) → heap w !! l = Some u →
    users (server w') !! k = Some (Some l) ∧
    ∃ u', heap w' !! l = Some u' ∧ ID u' = ID u ∧ CreatedAt u' = CreatedAt u.

(** Executable checks of [ids_match_keys], [counter_ahead] and
    [store_inv]. *)
Definition ids_match_keysb (w : World) : bool :=
  forallb (λ kv : Z * option positive,
             match deref (heap w) kv.2 with
             | Some u => bool_decide (ID u = kv.1)
             | None => false
             end)
          (map_to_list (users (server w))).

Definition counter_aheadb (w : World) : bool :=
  bool_decide (1 ≤ nextID (server w) ≤ GoInt.int_max) &&
  forallb (λ kv : Z * option positive,
             bool_decide (1 ≤ kv.1 < nextID (server w)))
          (map_to_list (users (server w))).

Definition store_invb (w : World) : bool :=
  validb w && ids_match_keysb w && counter_aheadb w.

Module DemoHttp.

(** A decimal parser used for [strconv.Atoi] in the examples: an optional
    sign (code 45 or 43) followed by at least one digit, within the range
    of [int]. *)
Definition digit (c : Ascii.ascii) : option Z :=
  let n := Z.of_N (Ascii.N_of_ascii c) in
  if decide (48 ≤ n ≤ 57) then Some (n - 48) else None.

Fixpoint digits (acc : Z) (s : string) : option Z :=
  match s with
  | EmptyString => Some acc
  | String c s' => d ← digit c; digits (acc * 10 + d) s'
  end.

Definition in_int (z : Z) : option Z :=
  if decide (GoInt.int_min ≤ z ≤ GoInt.int_max) then Some z else None.

Definition atoi (s : string) : option Z :=
  match s with
  | EmptyString => None
  | String c s' =>
      if decide (Ascii.N_of_ascii c = 45%N ∨ Ascii.N_of_ascii c = 43%N)
      then match s' with
           | EmptyString => None
           | _ => n ← digits 0 s';
                  in_int (if decide (Ascii.N_of_ascii c = 45%N) then - n else n)
           end
      else n ← digits 0 s; in_int n
  end.

(** The environment of a request served by the seeded server. *)
Definition env : Env :=
  mkEnv 1 1 (map_to_list (users (server Demo.seeded))) false.

Definition post_dan : Request :=
  mkRequest "POST" "/users"
            (Some (mkUser 99 "Dan" "dan@company.com" "" 0 0)).

Definition post_nameless : Request :=
  mkRequest "POST" "/users" (Some (new_User "" "dan@company.com" "active")).

Definition put_deactivate (path : string) : Request :=
  mkRequest "PUT" path (Some (mkUser 42 "" "" "inactive" 7 7)).

Definition get (path : string) : Request := mkRequest "GET" path None.

End DemoHttp.

(** ** The data processing pipeline
    (src/variables/go_variables_complete.md, lines 1249-1419) *)

(** The functions of Go's [strings] package the pipeline calls.  Those
    whose result depends on Unicode tables ([TrimSpace], [ToLower],
    [Title]) are taken as given; [Contains], [HasSuffix] and [Split] with
    a one-byte separator are written out on byte strings. *)
Module strings.

Record Lib : Type := mkLib {
  TrimSpace : string → string;
  ToLower : string → string;
  Title : string → string
}.

Fixpoint Contains (s substr : string) : bool :=
  String.prefix substr s ||
  match s with
  | EmptyString => false
  | String _ s' => Contains s' substr
  end.

(** [len(s) >= len(suffix) && s[len(s)-len(suffix):] == suffix] *)
Definition HasSuffix (s suffix : string) : bool :=
  bool_decide (String.length suffix ≤ String.length s)%nat &&
  bool_decide (String.substring (String.length s - String.length suffix)
                                (String.length suffix) s = suffix).

(** [Split(s, sep)] for a separator of one byte: the pieces of [s]
    between the occurrences of [sep]; always at least one piece. *)
Fixpoint Split (s : string) (sep : Ascii.ascii) : list string :=
  match s with
  | EmptyString => [EmptyString]
  | String a s' =>
      if decide (a = sep) then EmptyString :: Split s' sep
      else match Split s' sep with
           | p :: ps => String a p :: ps
           | [] => [String a EmptyString]
           end
  end.

(** The byte ["@"]. *)
Definition at_sign : Ascii.ascii := Ascii.ascii_of_N 64.

End strings.

Module Pipeline.

(** Go's [Record]. *)
Record DataRecord : Type := mkRecord {
  ID : Z;
  Name : string;
  Email : string;
  Status : string;
  CreatedAt : Z
}.

Record ProcessingStats : Type := mkStats {
  TotalRecords : Z;
  ValidRecords : Z;
  InvalidRecords : Z;
  ProcessedAt : Z;
  Duration : Z
}.

Record DataProcessor : Type := mkProcessor {
  emailDomain : string;
  requiredFields : list string;
  statusWhitelist : list string;
  batchSize : Z
}.

Definition NewDataProcessor : DataProcessor :=
  mkProcessor "@company.com" ["Name"; "Email"]
              ["active"; "pending"; "inactive"] 100.

(** The whitelist loop: [statusValid] becomes true at the first match
    and the loop breaks. *)
Fixpoint statusValid (status : string) (whitelist : list string) : bool :=
  match whitelist with
  | [] => false
  | validStatus :: rest =>
      if decide (status = validStatus) then true else statusValid status rest
  end.

Definition validateRecord (lib : strings.Lib) (dp : DataProcessor)
    (record : DataRecord) : bool :=
  if decide (strings.TrimSpace lib (Name record) = "") then false
  else if decide (strings.TrimSpace lib (Email record) = "") then false
  else if negb (strings.Contains (Email record) "@") then false
  else if negb (statusValid (Status record) (statusWhitelist dp)) then false
  else true.

Definition transformRecord (lib : strings.Lib) (dp : DataProcessor)
    (record : DataRecord) : DataRecord :=
  let name :=
    strings.Title lib (strings.ToLower lib (strings.TrimSpace lib (Name record))) in
  let email := strings.ToLower lib (strings.TrimSpace lib (Email record)) in
  let email :=
    if negb (strings.HasSuffix email (emailDomain dp))
    then match strings.Split email strings.at_sign with
         | [local; _] => local +:+ emailDomain dp
         | _ => email
         end
    else email in
  let status := strings.ToLower lib (Status record) in
  mkRecord (ID record) name email status (CreatedAt record).

(** How a run of the batch loop can end. *)
Inductive outcome (A : Type) : Type :=
  | Done (a : A)
  | Panic
  | OutOfFuel.
Arguments Done {A} a.
Arguments Panic {A}.
Arguments OutOfFuel {A}.

(** The loop over one batch. *)
Definition process_one (lib : strings.Lib) (dp : DataProcessor)
    (acc : list DataRecord * Z) (record : DataRecord) : list DataRecord * Z :=
  if validateRecord lib dp record
  then (acc.1 ++ [transformRecord lib dp record], acc.2)
  else (acc.1, GoInt.incr acc.2).

(** The loop over the batches, from index [i]; [printed] collects the
    arguments of the [Printf] calls.  [records[i:end]] panics unless
    [0 <= i <= end]; [end] never exceeds [len(records)] here. *)
Fixpoint batches (fuel : nat) (lib : strings.Lib) (dp : DataProcessor)
    (records : list DataRecord) (i : Z) (acc : list DataRecord * Z)
    (printed : list (Z * Z))
  : outcome (list DataRecord * Z * list (Z * Z)) :=
  match fuel with
  | O => OutOfFuel
  | S fuel' =>
      let len := Z.of_nat (length records) in
      if decide (i < len) then
        let end0 := GoInt.wrap (i + batchSize dp) in
        let end1 := if decide (end0 > len) then len else end0 in
        if decide (0 ≤ i ≤ end1) then
          let batch := take (Z.to_nat (end1 - i)) (drop (Z.to_nat i) records) in
          batches fuel' lib dp records (GoInt.wrap (i + batchSize dp))
                  (foldl (process_one lib dp) acc batch)
                  (printed ++ [(GoInt.wrap (i + 1), end1)])
        else Panic
      else Done (acc, printed)
  end.

Definition ProcessRecords (fuel : nat) (lib : strings.Lib) (d1 d2 : N)
    (clock : Z) (dp : DataProcessor) (records : list DataRecord)
  : outcome (ProcessingStats * list DataRecord * option string * list (Z * Z)) :=
  let startTime := GoTime.Now d1 clock in
  match batches fuel lib dp records 0 ([], 0) [] with
  | Done r =>
      Done (mkStats (Z.of_nat (length records)) (Z.of_nat (length r.1.1)) r.1.2
                    startTime
                    (GoTime.Sub (GoTime.Now d2 startTime) startTime),
            r.1.1, None, r.2)
  | Panic => Panic
  | OutOfFuel => OutOfFuel
  end.

(** A [strings.Lib] for the examples, written out for strings of ASCII
    bytes (below 128), on which Go's functions act as follows:
    [TrimSpace] strips leading and trailing tab, line feed, vertical tab,
    form feed, carriage return and space; [ToLower] maps ["A"].. ["Z"] to
    lower case; [Title] maps to upper case every letter that follows a
    separator, the separators being all bytes except letters, digits and
    the underscore, with a space assumed before the first byte. *)
Definition is_space (c : Ascii.ascii) : bool :=
  let n := Ascii.N_of_ascii c in
  bool_decide (9 ≤ n ≤ 13 ∨ n = 32)%N.

Definition ascii_lower (c : Ascii.ascii) : Ascii.ascii :=
  let n := Ascii.N_of_ascii c in
  if decide (65 ≤ n ≤ 90)%N then Ascii.ascii_of_N (n + 32) else c.

Definition ascii_upper (c : Ascii.ascii) : Ascii.ascii :=
  let n := Ascii.N_of_ascii c in
  if decide (97 ≤ n ≤ 122)%N then Ascii.ascii_of_N (n - 32) else c.

Definition is_separator (c : Ascii.ascii) : bool :=
  let n := Ascii.N_of_ascii c in
  negb (bool_decide (48 ≤ n ≤ 57 ∨ 97 ≤ n ≤ 122 ∨ 65 ≤ n ≤ 90 ∨ n = 95)%N).

Fixpoint lower (s : string) : string :=
  match s with
  | EmptyString => EmptyString
  | String c s' => String (ascii_lower c) (lower s')
  end.

Fixpoint trim_left (s : string) : string :=
  match s with
  | String c s' => if is_space c then trim_left s' else s
  | EmptyString => EmptyString
  end.

Definition trim (s : string) : string :=
  String.rev (trim_left (String.rev (trim_left s))).

Fixpoint title_from (prev : Ascii.ascii) (s : string) : string :=
  match s with
  | EmptyString => EmptyString
  | String c s' =>
      String (if is_separator prev then ascii_upper c else c) (title_from c s')
  end.

Definition title (s : string) : string := title_from (Ascii.ascii_of_N 32) s.

Definition demo_lib : strings.Lib := strings.mkLib trim lower title.

(** The records of [main]. *)
Definition rawRecords : list DataRecord :=
  [ mkRecord 1 "john doe" "JOHN@EXAMPLE.COM" "Active" 0;
    mkRecord 2 "" "invalid" "pending" 0;
    mkRecord 3 "jane smith" "jane@test.com" "INACTIVE" 0;
    mkRecord 4 "bob wilson" "bob@company.com" "active" 0 ].

End Pipeline.

(** ** Smaller fragments of the same file *)

(** [processNumbers] (lines 396-402): the sum of a slice of [int]. *)
Definition processNumbers (numbers : list Z) : Z :=
  foldl (λ sum num, GoInt.wrap (sum + num)) 0 numbers.

(** The option pattern (lines 976-1017).  A [ServerOption] is a function
    that assigns fields of the server being built. *)
Module OptionPattern.

Record Server : Type := mkServer {
  host : string;
  port : Z;
  timeout : Z
}.

Definition ServerOption : Type := Server → Server.

Definition WithHost (h : string) : ServerOption :=
  λ s, mkServer h (port s) (timeout s).

Definition WithPort (p : Z) : ServerOption :=
  λ s, mkServer (host s) p (timeout s).

Definition NewServer (options : list ServerOption) : Server :=
  foldl (λ server option, option server)
        (mkServer "localhost" 8080 (30 * GoTime.Second)) options.

(** An option list written with the two constructors of the fragment. *)
Definition of_choice (c : string + Z) : ServerOption :=
  match c with inl h => WithHost h | inr p => WithPort p end.

Definition hosts (cs : list (string + Z)) : list string :=
  omap (λ c, match c with inl h => Some h | inr _ => None end) cs.

Definition ports (cs : list (string + Z)) : list Z :=
  omap (λ c, match c with inl _ => None | inr p => Some p end) cs.

End OptionPattern.

(** Configuration validation (lines 1128-1228). *)
Module ConfigMgmt.

Record ServerConfig : Type := mkServerConfig {
  Host : string;
  Port : Z;
  ReadTimeout : Z;
  WriteTimeout : Z
}.

Record DatabaseConfig : Type := mkDatabaseConfig {
  DbHost : string;
  DbPort : Z;
  Username : string;
  Password : string;
  Database : string
}.

Record LoggingConfig : Type := mkLoggingConfig {
  Level : string;
  Format : string;
  Output : string
}.

Record Config : Type := mkConfig {
  Server : ServerConfig;
  Db : DatabaseConfig;
  Logging : LoggingConfig
}.

Definition defaultConfig : Config :=
  mkConfig
    (mkServerConfig "localhost" 8080 (30 * GoTime.Second) (30 * GoTime.Second))
    (mkDatabaseConfig "localhost" 5432 "app_user" "" "app_db")
    (mkLoggingConfig "info" "json" "stdout").

(** The errors of [Validate], with the arguments of their messages:
    ["invalid server port: %d"], ["database username is required"],
    ["invalid log level: %s"]. *)
Inductive ValidateError : Type :=
  | InvalidServerPort (p : Z)
  | UsernameRequired
  | InvalidLogLevel (level : string).

Definition validLevels : gmap string bool :=
  <["debug" := true]> (<["info" := true]> (<["warn" := true]>
    (<["error" := true]> ∅))).

(** [None] is the [nil] error.  Reading a missing key of a [map] gives
    the zero value, [false]. *)
Definition Validate (c : Config) : option ValidateError :=
  if decide (Port (Server c) ≤ 0 ∨ Port (Server c) > 65535)
  then Some (InvalidServerPort (Port (Server c)))
  else if decide (Username (Db c) = "")
  then Some UsernameRequired
  else if negb (default false (validLevels !! Level (Logging c)))
  then Some (InvalidLogLevel (Level (Logging c)))
  else None.

End ConfigMgmt.

#[global] Arguments assign : simpl never.
#[global] Arguments deref : simpl never.
#[global] Arguments getAllUsers : simpl never.

(** * Properties *)

(** ** The equations of [createUser] and [updateUser] *)

Lemma deref_Some h l : deref h (Some l) = h !! l.
Proof. done. Qed.

Lemma assign_Some l f h u :
  h !! l = Some u → assign (Some l) f h = Some (<[l := f u]> h).
Proof. intros H. unfold assign. simpl. by rewrite H. Qed.

Lemma assign_None p f h : deref h p = None → assign p f h = None.
Proof.
  unfold deref, assign. destruct p as [l|]; simpl; [|done].
  intros ->. done.
Qed.

Lemma createUser_eq d1 d2 l u w :
  heap w !! l = Some u →
  let t1 := GoTime.Now d1 (clock w) in
  let t2 := GoTime.Now d2 t1 in
  createUser d1 d2 (Some l) w =
    Some (Some l,
          mkWorld (<[l := created (nextID (server w)) t1 t2 u]> (heap w)) t2
            (with_users (<[nextID (server w) := Some l]> (users (server w)))
               (with_nextID (GoInt.incr (nextID (server w))) (server w)))).
Proof.
  intros Hl t1 t2. unfold createUser.
  rewrite (assign_Some _ _ _ _ Hl). simpl.
  erewrite assign_Some by apply lookup_insert_eq. simpl.
  erewrite assign_Some by apply lookup_insert_eq. simpl.
  rewrite deref_Some, lookup_insert_eq. simpl.
  rewrite !insert_insert_eq.
  unfold created. destruct (decide (Status u = "")) as [He|He]; simpl.
  - erewrite assign_Some by apply lookup_insert_eq. simpl.
    rewrite deref_Some, lookup_insert_eq. simpl. by rewrite insert_insert_eq.
  - rewrite deref_Some, lookup_insert_eq. simpl. done.
Qed.

Lemma createUser_nil d1 d2 user w :
  deref (heap w) user = None → createUser d1 d2 user w = None.
Proof. intros H. unfold createUser. by rewrite assign_None. Qed.

Lemma updateUser_absent d id updates w :
  users (server w) !! id = None →
  updateUser d id updates w = Some ((None, false), w).
Proof. intros H. unfold updateUser. by rewrite H. Qed.

Lemma updated_self now u : updated u now u = set_UpdatedAt now u.
Proof.
  unfold updated, set_UpdatedAt.
  by repeat case_decide.
Qed.

Lemma cond_assign (P : Prop) `{Decision P} l f h u :
  h !! l = Some u →
  (if decide P then assign (Some l) f h else Some h)
  = Some (<[l := if decide P then f u else u]> h).
Proof.
  intros Hl. destruct (decide P).
  - by apply assign_Some.
  - by rewrite insert_id.
Qed.

Lemma updateUser_eq d id l u updates up w :
  users (server w) !! id = Some (Some l) →
  heap w !! l = Some u →
  deref (heap w) updates = Some up →
  let now := GoTime.Now d (clock w) in
  updateUser d id updates w =
    Some ((Some l, true),
          mkWorld (<[l := updated up now u]> (heap w)) now (server w)).
Proof.
  intros Hid Hl Hup now. unfold updateUser. rewrite Hid.
  destruct updates as [q|]; [|done]. rewrite deref_Some in Hup.
  destruct (decide (q = l)) as [->|Hne].
  - (* the change set is the stored object itself: every copy is a no-op *)
    assert (up = u) as -> by congruence.
    assert (∀ (P : Prop) (HP : Decision P) f, f u = u →
      (if decide P then assign (Some l) f (heap w) else Some (heap w))
      = Some (heap w)) as Hself.
    { intros P HP f Hf. rewrite (cond_assign P l f _ u Hl).
      destruct (decide P); rewrite ?Hf; by rewrite insert_id. }
    simpl. rewrite deref_Some, Hl. simpl.
    rewrite Hself by (by destruct u). simpl. rewrite deref_Some, Hl. simpl.
    rewrite Hself by (by destruct u). simpl. rewrite deref_Some, Hl. simpl.
    rewrite Hself by (by destruct u). simpl.
    rewrite (assign_Some _ _ _ _ Hl). simpl.
    by rewrite updated_self.
  - simpl. rewrite deref_Some, Hup. simpl.
    rewrite (cond_assign _ l _ _ u Hl). simpl.
    rewrite deref_Some. rewrite lookup_insert_ne by done. rewrite Hup. simpl.
    erewrite cond_assign by apply lookup_insert_eq. simpl.
    rewrite insert_insert_eq, deref_Some.
    rewrite lookup_insert_ne by done. rewrite Hup. simpl.
    erewrite cond_assign by apply lookup_insert_eq. simpl.
    erewrite assign_Some by apply lookup_insert_eq. simpl.
    rewrite !insert_insert_eq. unfold updated.
    do 4 f_equal. destruct u; simpl. by repeat case_decide.
Qed.

Lemma updateUser_nil d id user updates w :
  users (server w) !! id = Some user →
  deref (heap w) updates = None →
  updateUser d id updates w = None.
Proof. intros Hid Hup. unfold updateUser. rewrite Hid. simpl. by rewrite Hup. Qed.

Lemma updateUser_dangling d id p updates w :
  users (server w) !! id = Some p →
  deref (heap w) p = None →
  updateUser d id updates w = None.
Proof.
  intros Hid Hp. unfold updateUser. rewrite Hid.
  destruct (deref (heap w) updates) as [up|] eqn:Hup; simpl; [|done].
  destruct (decide (Name up ≠ "")); simpl;
    [by rewrite assign_None|]. rewrite Hup. simpl.
  destruct (decide (Email up ≠ "")); simpl;
    [by rewrite assign_None|]. rewrite Hup. simpl.
  destruct (decide (Status up ≠ "")); simpl;
    [by rewrite assign_None|].
  by rewrite assign_None.
Qed.

(** Inversion: a call that returned did what the equations above say. *)
Lemma createUser_inv d1 d2 user w r w' :
  createUser d1 d2 user w = Some (r, w') →
  ∃ l u, user = Some l ∧ heap w !! l = Some u ∧ r = Some l ∧
    w' = mkWorld
           (<[l := created (nextID (server w)) (GoTime.Now d1 (clock w))
                     (GoTime.Now d2 (GoTime.Now d1 (clock w))) u]> (heap w))
           (GoTime.Now d2 (GoTime.Now d1 (clock w)))
           (with_users (<[nextID (server w) := Some l]> (users (server w)))
              (with_nextID (GoInt.incr (nextID (server w))) (server w))).
Proof.
  intros H. destruct (deref (heap w) user) as [u|] eqn:Hu.
  - destruct user as [l|]; [|done]. rewrite deref_Some in Hu.
    rewrite (createUser_eq d1 d2 l u w Hu) in H. simpl in H.
    exists l, u. by simplify_eq.
  - by rewrite createUser_nil in H.
Qed.

Lemma updateUser_inv d id updates w r w' :
  updateUser d id updates w = Some ((r, true), w') →
  ∃ l u up, users (server w) !! id = Some (Some l) ∧ heap w !! l = Some u ∧
    deref (heap w) updates = Some up ∧ r = Some l ∧
    w' = mkWorld (<[l := updated up (GoTime.Now d (clock w)) u]> (heap w))
           (GoTime.Now d (clock w)) (server w).
Proof.
  intros H. destruct (users (server w) !! id) as [p|] eqn:Hid.
  - destruct (deref (heap w) p) as [u|] eqn:Hp.
    + destruct p as [l|]; [|done]. rewrite deref_Some in Hp.
      destruct (deref (heap w) updates) as [up|] eqn:Hup.
      * rewrite (updateUser_eq d id l u updates up w Hid Hp Hup) in H.
        simpl in H. exists l, u, up. by simplify_eq.
      * by rewrite (updateUser_nil d id (Some l) updates w) in H.
    + by rewrite (updateUser_dangling d id p updates w) in H.
  - by rewrite updateUser_absent in H.
Qed.

(** ** Preservation of [valid] *)

Lemma Now_ge d c : c ≤ GoTime.Now d c.
Proof. unfold GoTime.Now. lia. Qed.

Lemma incr_no_wrap n :
  GoInt.int_min ≤ n < GoInt.int_max → GoInt.incr n = n + 1.
Proof.
  unfold GoInt.incr, GoInt.wrap, GoInt.int_min, GoInt.int_max. intros H.
  rewrite Z.mod_small; lia.
Qed.

Lemma NewServer_valid d host port h c : valid (NewServer d host port h c).
Proof. intros k p H. simpl in H. by rewrite lookup_empty in H. Qed.

Lemma createUser_valid d1 d2 user w r w' :
  valid w → createUser d1 d2 user w = Some (r, w') → valid w'.
Proof.
  intros Hv H. apply createUser_inv in H as (l & u & -> & Hl & -> & ->).
  intros k p Hk. simpl in Hk. simpl.
  assert (∃ l', p = Some l' ∧ ∃ u', heap w !! l' = Some u' ∧
            (l' ≠ l → UpdatedAt u' ≤ clock w)) as (l' & -> & u' & Hl' & Hle).
  { destruct (decide (nextID (server w) = k)) as [Heq|Hne].
    - subst k. rewrite lookup_insert_eq in Hk. simplify_eq.
      exists l. split; [done|]. exists u. split; [done|]. by intros [].
    - rewrite lookup_insert_ne in Hk by done.
      destruct (Hv k p Hk) as (l' & u' & -> & ? & ?).
      exists l'. split; [done|]. exists u'. by split. }
  exists l'. destruct (decide (l' = l)) as [->|Hne].
  - eexists. split; [done|]. rewrite lookup_insert_eq. split; [done|]. simpl. lia.
  - exists u'. split; [done|]. rewrite lookup_insert_ne by done.
    split; [done|]. specialize (Hle Hne).
    pose proof (Now_ge d1 (clock w)). pose proof (Now_ge d2 (GoTime.Now d1 (clock w))). lia.
Qed.

Lemma updateUser_valid d id updates w r ok w' :
  valid w → updateUser d id updates w = Some ((r, ok), w') → valid w'.
Proof.
  intros Hv H. destruct ok.
  - apply updateUser_inv in H as (l & u & up & Hid & Hl & Hup & -> & ->).
    intros k p Hk. simpl in Hk. simpl.
    destruct (Hv k p Hk) as (l' & u' & -> & Hl' & Hle).
    exists l'. destruct (decide (l' = l)) as [->|Hne].
    + eexists. split; [done|]. rewrite lookup_insert_eq. split; [done|]. simpl. lia.
    + exists u'. split; [done|]. rewrite lookup_insert_ne by done.
      split; [done|]. pose proof (Now_ge d (clock w)). lia.
  - destruct (users (server w) !! id) as [p|] eqn:Hid.
    + destruct (deref (heap w) p) as [u|] eqn:Hp.
      * destruct p as [l|]; [|done]. rewrite deref_Some in Hp.
        destruct (deref (heap w) updates) as [up|] eqn:Hup.
        -- by rewrite (updateUser_eq d id l u updates up w Hid Hp Hup) in H.
        -- by rewrite (updateUser_nil d id (Some l) updates w) in H.
      * by rewrite (updateUser_dangling d id p updates w) in H.
    + rewrite updateUser_absent in H by done. by simplify_eq.
Qed.

(** ** Soundness of the executable checks *)

Lemma validb_sound w : validb w = true → valid w.
Proof.
  unfold validb. rewrite forallb_forall. intros H k p Hk.
  apply elem_of_map_to_list, list_elem_of_In in Hk.
  specialize (H _ Hk). simpl in H.
  destruct p as [l|]; [|done]. destruct (heap w !! l) as [u|] eqn:Hl; [|done].
  apply bool_decide_eq_true in H. by exists l, u.
Qed.

Lemma unstoredb_sound p w : unstoredb p w = true → unstored p w.
Proof.
  unfold unstoredb. rewrite forallb_forall. intros H k Hk.
  apply elem_of_map_to_list, list_elem_of_In in Hk.
  specialize (H _ Hk). simpl in H. by apply bool_decide_eq_true in H.
Qed.

Lemma store_invb_sound w : store_invb w = true → store_inv w.
Proof.
  unfold store_invb. rewrite !andb_true_iff. intros [[Hv Hi] Hc].
  split; [by apply validb_sound|]. split.
  - unfold ids_match_keysb in Hi. rewrite forallb_forall in Hi.
    intros k p Hk. apply elem_of_map_to_list, list_elem_of_In in Hk.
    specialize (Hi _ Hk). cbn [fst snd] in Hi.
    destruct (deref (heap w) p) as [u|]; [|done].
    apply bool_decide_eq_true in Hi. by exists u.
  - unfold counter_aheadb in Hc. rewrite andb_true_iff in Hc.
    destruct Hc as [Hn Hk]. apply bool_decide_eq_true in Hn.
    split; [done|]. rewrite forallb_forall in Hk.
    intros k [p Hp]. apply elem_of_map_to_list, list_elem_of_In in Hp.
    specialize (Hk _ Hp). by apply bool_decide_eq_true in Hk.
Qed.

(** ** createUser *)

(** C2.  [createUser] on a non-nil candidate overwrites whatever [ID] the
    caller put there with the current [nextID], increments [nextID]
    (Go's [++], which is [+ 1] below the largest [int]), stamps
    [CreatedAt] and [UpdatedAt] with two successive clock readings, sets
    [Status] to ["active"] exactly when it was empty, leaves [Name] and
    [Email] alone, stores the object under its new id and returns it. *)
Theorem createUser_populates d1 d2 l u w :
  heap w !! l = Some u →
  ∃ w' u',
    createUser d1 d2 (Some l) w = Some (Some l, w') ∧
    deref (heap w') (Some l) = Some u' ∧
    ID u' = nextID (server w) ∧
    nextID (server w') = GoInt.incr (nextID (server w)) ∧
    (GoInt.int_min ≤ nextID (server w) < GoInt.int_max →
       nextID (server w') = nextID (server w) + 1) ∧
    CreatedAt u' = GoTime.Now d1 (clock w) ∧
    UpdatedAt u' = GoTime.Now d2 (GoTime.Now d1 (clock w)) ∧
    (Status u = "" → Status u' = "active") ∧
    (Status u ≠ "" → Status u' = Status u) ∧
    Name u' = Name u ∧ Email u' = Email u ∧
    users (server w') = <[ID u' := Some l]> (users (server w)) ∧
    (∀ l', l' ≠ l → heap w' !! l' = heap w !! l').
Proof.
  intros Hl. eexists _, _. split; [by apply createUser_eq|]. simpl.
  rewrite deref_Some, lookup_insert_eq.
  split_and!; try done.
  - apply incr_no_wrap.
  - intros He. unfold created. simpl. by rewrite decide_True.
  - intros He. unfold created. simpl. by rewrite decide_False.
  - intros l' Hne. by rewrite lookup_insert_ne.
Qed.

Lemma createUser_populates_witness :
  heap Demo.dave.2 !! Demo.dave.1 = Some (mkUser 77 "Dave" "dave@company.com" "" 0 0) ∧
  ∃ w' u',
    createUser 1 1 (Some Demo.dave.1) Demo.dave.2 = Some (Some Demo.dave.1, w') ∧
    deref (heap w') (Some Demo.dave.1) = Some u' ∧
    ID u' = 4 ∧ nextID (server w') = 5 ∧ Status u' = "active".
Proof.
  assert (heap Demo.dave.2 !! Demo.dave.1
          = Some (mkUser 77 "Dave" "dave@company.com" "" 0 0)) as H
    by (vm_compute; reflexivity).
  split; [exact H|].
  destruct (createUser_populates 1 1 _ _ _ H)
    as (w' & u' & Hc & Hd & Hi & Hn & _ & _ & _ & Hs & _).
  exists w', u'.
  split; [exact Hc|]. split; [exact Hd|].
  split; [rewrite Hi; vm_compute; reflexivity|].
  split; [rewrite Hn; vm_compute; reflexivity|].
  exact (Hs eq_refl).
Defined.

(** ** updateUser and getUser *)

(** C3.  On an existing id [updateUser] copies exactly the non-empty
    fields of the change set into the stored object, keeps [ID] and
    [CreatedAt], stamps [UpdatedAt] with the new clock reading, which is
    no earlier than the previous stamp, and returns the stored object
    with [true]; nothing else in the store changes.  In particular a
    change set with only [Status = "inactive"] keeps [Name], [Email] and
    [CreatedAt] and sets [Status] to ["inactive"]. *)
Theorem updateUser_applies d id p updates up w :
  valid w →
  users (server w) !! id = Some p →
  deref (heap w) updates = Some up →
  ∃ l u u' w',
    p = Some l ∧ heap w !! l = Some u ∧
    updateUser d id updates w = Some ((Some l, true), w') ∧
    heap w' !! l = Some u' ∧
    Name u' = (if decide (Name up = "") then Name u else Name up) ∧
    Email u' = (if decide (Email up = "") then Email u else Email up) ∧
    Status u' = (if decide (Status up = "") then Status u else Status up) ∧
    ID u' = ID u ∧ CreatedAt u' = CreatedAt u ∧
    UpdatedAt u' = GoTime.Now d (clock w) ∧
    UpdatedAt u ≤ UpdatedAt u' ∧
    server w' = server w ∧
    (∀ l', l' ≠ l → heap w' !! l' = heap w !! l') ∧
    (Name up = "" → Email up = "" → Status up = "inactive" →
       Name u' = Name u ∧ Email u' = Email u ∧ CreatedAt u' = CreatedAt u ∧
       Status u' = "inactive").
Proof.
  intros Hv Hid Hup. destruct (Hv id p Hid) as (l & u & -> & Hl & Hle).
  exists l, u. eexists _, _. split; [done|]. split; [done|].
  split; [by apply (updateUser_eq d id l u updates up w)|]. simpl.
  rewrite lookup_insert_eq. split; [done|]. simpl.
  pose proof (Now_ge d (clock w)).
  split_and!; try done; try lia.
  - by repeat case_decide.
  - by repeat case_decide.
  - by repeat case_decide.
  - intros l' Hne. by rewrite lookup_insert_ne.
  - intros -> -> ->. by repeat case_decide.
Qed.

Lemma updateUser_applies_witness :
  ∃ u u' w',
    heap Demo.deactivate.2 !! 1%positive = Some u ∧
    updateUser 1 1 (Some Demo.deactivate.1) Demo.deactivate.2
      = Some ((Some 1%positive, true), w') ∧
    heap w' !! 1%positive = Some u' ∧
    Name u' = Name u ∧ Email u' = Email u ∧ CreatedAt u' = CreatedAt u ∧
    Status u' = "inactive" ∧ UpdatedAt u ≤ UpdatedAt u'.
Proof.
  assert (valid Demo.deactivate.2) as Hv
    by (apply validb_sound; vm_compute; reflexivity).
  assert (users (server Demo.deactivate.2) !! 1 = Some (Some 1%positive)) as Hid
    by (vm_compute; reflexivity).
  assert (deref (heap Demo.deactivate.2) (Some Demo.deactivate.1)
          = Some (new_User "" "" "inactive")) as Hup
    by (vm_compute; reflexivity).
  destruct (updateUser_applies 1 1 _ _ _ _ Hv Hid Hup)
    as (l & u & u' & w' & Hp & Hl & Hr & Hl' & _ & _ & _ & _ & _ & _ & Hle & _ & _ & Hs).
  injection Hp as <-.
  destruct (Hs eq_refl eq_refl eq_refl) as (Hn & He & Hc & Hst).
  exists u, u', w'.
  split; [exact Hl|]. split; [exact Hr|]. split; [exact Hl'|].
  split; [exact Hn|]. split; [exact He|]. split; [exact Hc|].
  split; [exact Hst|exact Hle].
Defined.

(** C4.  On an id that is not a key of the map, [getUser] returns
    [(nil, false)] and [updateUser] returns [(nil, false)] without
    panicking, whatever the change set (even nil), and both leave the
    whole world, hence the map and [nextID], as it was. *)
Theorem absent_id_not_found d id updates w :
  users (server w) !! id = None →
  getUser id w = ((None, false), w) ∧
  updateUser d id updates w = Some ((None, false), w).
Proof.
  intros H. split.
  - unfold getUser. by rewrite H.
  - by apply updateUser_absent.
Qed.

Lemma absent_id_not_found_witness :
  users (server (NewServer 0 "localhost" 8080 ∅ 0)) !! 99999 = None ∧
  getUser 99999 (NewServer 0 "localhost" 8080 ∅ 0)
    = ((None, false), NewServer 0 "localhost" 8080 ∅ 0) ∧
  updateUser 1 99999 None (NewServer 0 "localhost" 8080 ∅ 0)
    = Some ((None, false), NewServer 0 "localhost" 8080 ∅ 0).
Proof.
  assert (users (server (NewServer 0 "localhost" 8080 ∅ 0)) !! 99999 = None) as H
    by (vm_compute; reflexivity).
  split; [exact H|]. exact (absent_id_not_found 1 99999 None _ H).
Defined.

(** C10.  On an existing id, a change set whose [Name], [Email] and
    [Status] are all empty still succeeds: the stored object keeps every
    field except [UpdatedAt], which becomes the new clock reading, and
    the call returns the object with [true]. *)
Theorem updateUser_blank_touches d id p updates up w :
  valid w →
  users (server w) !! id = Some p →
  deref (heap w) updates = Some up →
  Name up = "" → Email up = "" → Status up = "" →
  ∃ l u u' w',
    p = Some l ∧ heap w !! l = Some u ∧
    updateUser d id updates w = Some ((Some l, true), w') ∧
    heap w' !! l = Some u' ∧
    UpdatedAt u' = GoTime.Now d (clock w) ∧
    ID u' = ID u ∧ Name u' = Name u ∧ Email u' = Email u ∧
    Status u' = Status u ∧ CreatedAt u' = CreatedAt u ∧
    w' = mkWorld (<[l := u']> (heap w)) (GoTime.Now d (clock w)) (server w).
Proof.
  intros Hv Hid Hup Hn He Hs. destruct (Hv id p Hid) as (l & u & -> & Hl & Hle).
  exists l, u. eexists _, _. split; [done|]. split; [done|].
  split; [by apply (updateUser_eq d id l u updates up w)|].
  cbn [heap]. rewrite lookup_insert_eq. split; [done|].
  cbn [updated UpdatedAt ID Name Email Status CreatedAt].
  rewrite Hn, He, Hs. split_and!; try done; by repeat case_decide.
Qed.

Lemma updateUser_blank_touches_witness :
  ∃ u u' w',
    heap Demo.blank.2 !! 2%positive = Some u ∧
    updateUser 5 2 (Some Demo.blank.1) Demo.blank.2
      = Some ((Some 2%positive, true), w') ∧
    heap w' !! 2%positive = Some u' ∧
    UpdatedAt u = 4 ∧ UpdatedAt u' = 11 ∧
    Name u' = Name u ∧ Email u' = Email u ∧ Status u' = Status u ∧
    CreatedAt u' = CreatedAt u.
Proof.
  assert (valid Demo.blank.2) as Hv
    by (apply validb_sound; vm_compute; reflexivity).
  assert (users (server Demo.blank.2) !! 2 = Some (Some 2%positive)) as Hid
    by (vm_compute; reflexivity).
  assert (deref (heap Demo.blank.2) (Some Demo.blank.1)
          = Some (new_User "" "" "")) as Hup
    by (vm_compute; reflexivity).
  destruct (updateUser_blank_touches 5 2 _ _ _ _ Hv Hid Hup eq_refl eq_refl eq_refl)
    as (l & u & u' & w' & Hp & Hl & Hr & Hl' & Hu & _ & Hn & He & Hs & Hc & _).
  injection Hp as <-. exists u, u', w'.
  split; [exact Hl|]. split; [exact Hr|]. split; [exact Hl'|].
  assert (heap Demo.blank.2 !! 2%positive
          = Some (mkUser 2 "Bob Smith" "bob@company.com" "active" 3 4)) as Hl2
    by (vm_compute; reflexivity).
  split; [rewrite Hl2 in Hl; by injection Hl as <-|].
  split; [rewrite Hu; vm_compute; reflexivity|].
  split; [exact Hn|]. split; [exact He|]. split; [exact Hs|exact Hc].
Defined.

(** ** getStats *)

Lemma count_active_other h l :
  (count_active h l + count_other h l)%nat = length l.
Proof.
  unfold count_active, count_other. induction l as [|kv l IH]; [done|].
  rewrite !filter_cons. repeat case_decide; simpl; try lia; done.
Qed.

Lemma count_user_live h a i kv u :
  deref h kv.2 = Some u →
  count_user h (Some (a, i)) kv
  = Some (if decide (Status u = "active") then (GoInt.incr a, i)
          else (a, GoInt.incr i)).
Proof.
  intros Hu. unfold count_user. simpl. rewrite Hu. simpl.
  by destruct (decide (Status u = "active")).
Qed.

Lemma count_loop h order : ∀ a i,
  Forall (λ kv : Z * option positive, is_Some (deref h kv.2)) order →
  0 ≤ a → 0 ≤ i →
  a + Z.of_nat (length order) ≤ GoInt.int_max →
  i + Z.of_nat (length order) ≤ GoInt.int_max →
  foldl (count_user h) (Some (a, i)) order
  = Some (a + Z.of_nat (count_active h order), i + Z.of_nat (count_other h order)).
Proof.
  induction order as [|kv order IH]; intros a i Hall Ha Hi Hba Hbi.
  - unfold count_active, count_other. simpl. f_equal. f_equal; lia.
  - apply Forall_cons in Hall as [[u Hu] Hall]. simpl in Hba, Hbi.
    assert (GoInt.int_min ≤ 0) by (unfold GoInt.int_min; lia).
    cbn [foldl]. rewrite (count_user_live h a i kv u Hu).
    assert (status_of h kv = Some (Status u)) as Hs
      by (unfold status_of; by rewrite Hu).
    unfold count_active, count_other. rewrite !filter_cons.
    destruct (decide (Status u = "active")) as [He|He].
    + rewrite decide_True by (rewrite Hs; congruence).
      rewrite decide_False by (rewrite Hs; intros Hc; apply Hc; congruence).
      rewrite incr_no_wrap by lia. rewrite IH by (done || lia).
      unfold count_active, count_other. cbn [length]. f_equal. f_equal; lia.
    + rewrite decide_False by (rewrite Hs; congruence).
      rewrite decide_True by (rewrite Hs; congruence).
      rewrite incr_no_wrap by lia. rewrite IH by (done || lia).
      unfold count_active, count_other. cbn [length]. f_equal. f_equal; lia.
Qed.

Lemma range_order_canonical m : range_order m (map_to_list m).
Proof. unfold range_order. reflexivity. Qed.

Lemma valid_range_live w order :
  valid w → range_order (users (server w)) order →
  Forall (λ kv : Z * option positive, is_Some (deref (heap w) kv.2)) order.
Proof.
  intros Hv Ho. apply Forall_forall. intros [k p] Hin.
  unfold range_order in Ho. rewrite Ho in Hin.
  apply elem_of_map_to_list in Hin.
  destruct (Hv k p Hin) as (l & u & -> & Hl & _). simpl.
  rewrite deref_Some, Hl. by eexists.
Qed.

Lemma getStats_eq d order w :
  valid w → len_fits w → range_order (users (server w)) order →
  getStats d order w =
    Some (mkServerStats
            (Z.of_nat (size (users (server w))))
            (Z.of_nat (count_active (heap w) (map_to_list (users (server w)))))
            (Z.of_nat (count_other (heap w) (map_to_list (users (server w)))))
            (GoTime.Sub (GoTime.Now d (clock w)) (started (server w)))
            (started (server w)),
          mkWorld (heap w) (GoTime.Now d (clock w)) (server w)).
Proof.
  intros Hv Hfit Ho. unfold getStats.
  assert (length order = size (users (server w))) as Hlen.
  { unfold range_order in Ho. by rewrite Ho, length_map_to_list. }
  unfold len_fits in Hfit.
  rewrite (count_loop (heap w) order 0 0) by
    (try (by apply valid_range_live); lia).
  simpl. unfold count_active, count_other. unfold range_order in Ho.
  by rewrite !Ho.
Qed.

Lemma len_fitsb_sound w : len_fitsb w = true → len_fits w.
Proof. apply bool_decide_eq_true. Qed.

(** C9.  [getStats] returns, and its three counters satisfy
    [TotalUsers = ActiveUsers + InactiveUsers]: [ActiveUsers] counts the
    entities whose status is exactly ["active"] and [InactiveUsers]
    counts every other entity, whatever its status. *)
Theorem getStats_total_is_sum d order w :
  valid w → len_fits w → range_order (users (server w)) order →
  ∃ st w',
    getStats d order w = Some (st, w') ∧
    TotalUsers st = ActiveUsers st + InactiveUsers st ∧
    ActiveUsers st
      = Z.of_nat (count_active (heap w) (map_to_list (users (server w)))) ∧
    InactiveUsers st
      = Z.of_nat (count_other (heap w) (map_to_list (users (server w)))).
Proof.
  intros Hv Hfit Ho. eexists _, _. split; [by apply getStats_eq|]. simpl.
  split; [|done].
  rewrite <- length_map_to_list,
    <- (count_active_other (heap w) (map_to_list (users (server w)))).
  lia.
Qed.

Lemma getStats_total_is_sum_witness :
  ∃ st w',
    getStats 1 (map_to_list (users (server Demo.with_pending))) Demo.with_pending
      = Some (st, w') ∧
    TotalUsers st = ActiveUsers st + InactiveUsers st ∧
    ActiveUsers st = 2 ∧ InactiveUsers st = 2.
Proof.
  assert (valid Demo.with_pending) as Hv
    by (apply validb_sound; vm_compute; reflexivity).
  assert (len_fits Demo.with_pending) as Hf
    by (apply len_fitsb_sound; vm_compute; reflexivity).
  assert (range_order (users (server Demo.with_pending))
            (map_to_list (users (server Demo.with_pending)))) as Ho
    by apply range_order_canonical.
  destruct (getStats_total_is_sum 1 _ _ Hv Hf Ho) as (st & w' & Hg & Hs & Ha & Hi).
  exists st, w'. split; [exact Hg|]. split; [exact Hs|].
  split; [rewrite Ha|rewrite Hi]; vm_compute; reflexivity.
Defined.

Lemma spec_status_counts_lookup h (l : list (Z * option positive)) (s : string) :
  default 0%nat
    (foldr (λ kv acc,
              match status_of h kv with
              | Some s' => <[s' := S (default 0%nat (acc !! s'))]> acc
              | None => acc
              end) (∅ : gmap string nat) l !! s)
  = length (filter (λ kv, status_of h kv = Some s) l).
Proof.
  induction l as [|kv l IH]; [done|].
  rewrite filter_cons. cbn [foldr].
  destruct (status_of h kv) as [s'|] eqn:Hs.
  - destruct (decide (s' = s)) as [->|Hne].
    + rewrite lookup_insert_eq, decide_True by done. simpl. by rewrite IH.
    + rewrite lookup_insert_ne, decide_False by congruence. done.
  - by rewrite decide_False.
Qed.

(** A store holding one ["inactive"] user and a store holding one
    ["pending"] user produce the same [ServerStats], although their
    per-status counts differ. *)
Lemma getStats_merges_statuses :
  ∃ w1 w2,
    getStats 1 (map_to_list (users (server (Demo.single "inactive"))))
             (Demo.single "inactive")
      = Some (mkServerStats 1 0 1 3 0, w1) ∧
    getStats 1 (map_to_list (users (server (Demo.single "pending"))))
             (Demo.single "pending")
      = Some (mkServerStats 1 0 1 3 0, w2) ∧
    spec_status_counts (Demo.single "inactive") !! "pending" = None ∧
    spec_status_counts (Demo.single "pending") !! "pending" = Some 1%nat.
Proof.
  eexists _, _. split; [vm_compute; reflexivity|].
  split; [vm_compute; reflexivity|].
  split; vm_compute; reflexivity.
Qed.

(** C5, as the specification states it, fails: the result of [getStats]
    does not determine the per-status counts.  A store holding one
    ["inactive"] user and a store holding one ["pending"] user produce
    the same [ServerStats], so no reading of a [ServerStats] value gives
    the per-status mapping of every store. *)
Lemma getStats_not_per_status :
  ¬ ∃ view : ServerStats → gmap string nat,
      ∀ d order w st w',
        valid w → len_fits w → range_order (users (server w)) order →
        getStats d order w = Some (st, w') →
        view st = spec_status_counts w.
Proof.
  intros [view H].
  destruct getStats_merges_statuses as (w1 & w2 & Ha & Hb & Hna & Hnb).
  assert (view (mkServerStats 1 0 1 3 0)
          = spec_status_counts (Demo.single "inactive")) as Ea.
  { apply (H _ _ (Demo.single "inactive") _ _
             (validb_sound (Demo.single "inactive") ltac:(vm_compute; reflexivity))
             (len_fitsb_sound (Demo.single "inactive") ltac:(vm_compute; reflexivity))
             (range_order_canonical _) Ha). }
  assert (view (mkServerStats 1 0 1 3 0)
          = spec_status_counts (Demo.single "pending")) as Eb.
  { apply (H _ _ (Demo.single "pending") _ _
             (validb_sound (Demo.single "pending") ltac:(vm_compute; reflexivity))
             (len_fitsb_sound (Demo.single "pending") ltac:(vm_compute; reflexivity))
             (range_order_canonical _) Hb). }
  rewrite Ea in Eb. rewrite Eb in Hna. rewrite Hna in Hnb. discriminate Hnb.
Qed.

(** C5, amended.  [getStats] returns the number of entries of the map,
    the number of entities whose status is exactly ["active"] (the
    per-status count of ["active"], zero when no such entity exists) and
    the number of all remaining entities under one counter, together
    with the start time and the uptime; on an empty map the three
    counters are zero; the heap and the server are left as they were. *)
Theorem getStats_counts d order w :
  valid w → len_fits w → range_order (users (server w)) order →
  ∃ st,
    getStats d order w
      = Some (st, mkWorld (heap w) (GoTime.Now d (clock w)) (server w)) ∧
    TotalUsers st = Z.of_nat (size (users (server w))) ∧
    ActiveUsers st
      = Z.of_nat (default 0%nat (spec_status_counts w !! "active")) ∧
    InactiveUsers st = TotalUsers st - ActiveUsers st ∧
    InactiveUsers st
      = Z.of_nat (count_other (heap w) (map_to_list (users (server w)))) ∧
    StartedAt st = started (server w) ∧
    Uptime st = GoTime.Sub (GoTime.Now d (clock w)) (started (server w)) ∧
    (users (server w) = ∅ →
       TotalUsers st = 0 ∧ ActiveUsers st = 0 ∧ InactiveUsers st = 0).
Proof.
  intros Hv Hfit Ho. eexists. split; [by apply getStats_eq|]. simpl.
  pose proof (count_active_other (heap w) (map_to_list (users (server w)))) as Hsum.
  rewrite length_map_to_list in Hsum.
  unfold spec_status_counts. rewrite spec_status_counts_lookup.
  fold (count_active (heap w) (map_to_list (users (server w)))).
  split_and!; try done; try lia.
  intros He. rewrite He in Hsum |- *. rewrite map_to_list_empty.
  by vm_compute.
Qed.

Lemma getStats_counts_witness :
  ∃ st,
    getStats 1 (map_to_list (users (server Demo.seeded))) Demo.seeded
      = Some (st, mkWorld (heap Demo.seeded) 7 (server Demo.seeded)) ∧
    TotalUsers st = 3 ∧ ActiveUsers st = 2 ∧ InactiveUsers st = 1.
Proof.
  assert (valid Demo.seeded) as Hv
    by (apply validb_sound; vm_compute; reflexivity).
  assert (len_fits Demo.seeded) as Hf
    by (apply len_fitsb_sound; vm_compute; reflexivity).
  destruct (getStats_counts 1 _ _ Hv Hf (range_order_canonical _))
    as (st & Hg & Ht & Ha & _ & Hi & _).
  exists st. split; [exact Hg|].
  split; [rewrite Ht|split; [rewrite Ha|rewrite Hi]]; vm_compute; reflexivity.
Defined.

(** ** getAllUsers *)

Lemma getAllUsers_eq order w : getAllUsers order w = (order.*2, w).
Proof.
  unfold getAllUsers. f_equal.
  assert (∀ acc : list (option positive),
            foldl (λ acc kv, acc ++ [kv.2]) acc order = acc ++ order.*2) as H.
  { induction order as [|kv order IH]; intros acc; simpl.
    - by rewrite app_nil_r.
    - by rewrite IH, <- app_assoc. }
  apply (H []).
Qed.

Lemma getAllUsers_elem order w p :
  range_order (users (server w)) order →
  p ∈ (getAllUsers order w).1 ↔ ∃ k, users (server w) !! k = Some p.
Proof.
  intros Ho. rewrite getAllUsers_eq. simpl. unfold range_order in Ho.
  rewrite Ho, list_elem_of_fmap. split.
  - intros ([k q] & -> & Hin). exists k. by apply elem_of_map_to_list.
  - intros [k Hk]. exists (k, p). split; [done|]. by apply elem_of_map_to_list.
Qed.

Lemma deref_insert_ne h l u p :
  p ≠ Some l → deref (<[l := u]> h) p = deref h p.
Proof.
  intros Hne. destruct p as [l'|]; [|done].
  rewrite !deref_Some. apply lookup_insert_ne. congruence.
Qed.


(** C8, as stated, fails: two [range] loops over the same map need not
    visit the entries in the same order, so two listings of the seeded
    server can come out in different orders. *)
Lemma getAllUsers_order_differs :
  range_order (users (server Demo.seeded))
              (map_to_list (users (server Demo.seeded))) ∧
  range_order (users (server Demo.seeded))
              (reverse (map_to_list (users (server Demo.seeded)))) ∧
  (getAllUsers (map_to_list (users (server Demo.seeded))) Demo.seeded).1
  ≠ (getAllUsers (reverse (map_to_list (users (server Demo.seeded))))
       (getAllUsers (map_to_list (users (server Demo.seeded))) Demo.seeded).2).1.
Proof.
  split; [apply range_order_canonical|].
  split; [apply reverse_Permutation|].
  vm_compute. intros H. discriminate H.
Qed.

(** Two iteration orders of a map in which no pointer is stored under
    two keys are equal as soon as they list the pointers in the same
    order. *)
Lemma range_order_values_inj (m : gmap Z (option positive)) o1 o2 :
  (∀ k1 k2 p, m !! k1 = Some p → m !! k2 = Some p → k1 = k2) →
  range_order m o1 → range_order m o2 →
  o1.*2 = o2.*2 → o1 = o2.
Proof.
  intros Hinj H1 H2 Heq. apply list_eq. intros i.
  assert ((o1.*2) !! i = (o2.*2) !! i) as Hi by (by rewrite Heq).
  rewrite !list_lookup_fmap in Hi.
  destruct (o1 !! i) as [[k1 p1]|] eqn:E1, (o2 !! i) as [[k2 p2]|] eqn:E2;
    simpl in Hi; try done.
  simplify_eq. f_equal. f_equal.
  apply list_elem_of_lookup_2 in E1, E2.
  unfold range_order in H1, H2. rewrite H1 in E1. rewrite H2 in E2.
  apply elem_of_map_to_list in E1, E2. by apply (Hinj k1 k2 p2).
Qed.

(** C8, amended.  Two calls of [getAllUsers] with no call in between
    leave the world as it was and return slices with the same content:
    each is a permutation of the other, has one element per entry of the
    map and holds exactly the stored pointers.  They are in the same
    order whenever the two loops visit the map in the same order, and,
    when no object is stored under two keys, only then. *)
Theorem getAllUsers_twice o1 o2 w :
  range_order (users (server w)) o1 →
  range_order (users (server w)) o2 →
  (getAllUsers o1 w).2 = w ∧
  (getAllUsers o2 (getAllUsers o1 w).2).2 = w ∧
  (getAllUsers o1 w).1 ≡ₚ (getAllUsers o2 (getAllUsers o1 w).2).1 ∧
  length (getAllUsers o1 w).1 = size (users (server w)) ∧
  (∀ p, p ∈ (getAllUsers o1 w).1 ↔ ∃ k, users (server w) !! k = Some p) ∧
  (o1 = o2 → (getAllUsers o1 w).1 = (getAllUsers o2 (getAllUsers o1 w).2).1) ∧
  ((∀ k1 k2 p, users (server w) !! k1 = Some p →
               users (server w) !! k2 = Some p → k1 = k2) →
   (getAllUsers o1 w).1 = (getAllUsers o2 (getAllUsers o1 w).2).1 → o1 = o2).
Proof.
  intros H1 H2. rewrite !getAllUsers_eq. simpl. rewrite ?getAllUsers_eq. simpl.
  split_and!; try done.
  - unfold range_order in *. by rewrite H1, H2.
  - unfold range_order in *. by rewrite length_fmap, H1, length_map_to_list.
  - intros p. rewrite <- (getAllUsers_elem o1 w p H1). by rewrite getAllUsers_eq.
  - by intros ->.
  - intros Hinj Heq. by apply (range_order_values_inj (users (server w))).
Qed.

Lemma getAllUsers_twice_witness :
  (getAllUsers (map_to_list (users (server Demo.seeded))) Demo.seeded).1
  ≡ₚ (getAllUsers (reverse (map_to_list (users (server Demo.seeded))))
        (getAllUsers (map_to_list (users (server Demo.seeded))) Demo.seeded).2).1 ∧
  length (getAllUsers (map_to_list (users (server Demo.seeded))) Demo.seeded).1
  = 3%nat ∧
  (getAllUsers (map_to_list (users (server Demo.seeded))) Demo.seeded).1
  ≠ (getAllUsers (reverse (map_to_list (users (server Demo.seeded))))
       (getAllUsers (map_to_list (users (server Demo.seeded))) Demo.seeded).2).1.
Proof.
  destruct (getAllUsers_twice
              (map_to_list (users (server Demo.seeded)))
              (reverse (map_to_list (users (server Demo.seeded))))
              Demo.seeded
              (range_order_canonical _)
              (reverse_Permutation _)) as (_ & _ & Hp & Hl & _ & _ & Honly).
  split; [exact Hp|]. split; [rewrite Hl; vm_compute; reflexivity|].
  intros Heq.
  assert (∀ k1 k2 p, users (server Demo.seeded) !! k1 = Some p →
                     users (server Demo.seeded) !! k2 = Some p → k1 = k2) as Hinj.
  { assert (store_inv Demo.seeded) as (_ & Hids & _)
      by (apply store_invb_sound; vm_compute; reflexivity).
    intros k1 k2 p Hk1 Hk2.
    destruct (Hids k1 p Hk1) as (u1 & Hu1 & <-).
    destruct (Hids k2 p Hk2) as (u2 & Hu2 & <-). congruence. }
  specialize (Honly Hinj Heq). vm_compute in Honly. discriminate Honly.
Defined.

(** C6, as stated, fails: the slice holds the store's own pointers.
    After listing the seeded server, a successful update of user 1 is
    seen through the slice obtained before, and a field written through
    the first element of the slice is written to the entity the map
    holds under key 3. *)
Lemma getAllUsers_aliases_store :
  (∃ w',
     updateUser 1 1 (Some Demo.deactivate.1) Demo.deactivate.2
       = Some ((Some 1%positive, true), w') ∧
     deref (heap w') <$>
       (getAllUsers (map_to_list (users (server Demo.deactivate.2)))
                    Demo.deactivate.2).1
     ≠ deref (heap Demo.deactivate.2) <$>
       (getAllUsers (map_to_list (users (server Demo.deactivate.2)))
                    Demo.deactivate.2).1) ∧
  (∃ p h',
     (getAllUsers (map_to_list (users (server Demo.deactivate.2)))
                  Demo.deactivate.2).1 !! 0%nat = Some p ∧
     users (server Demo.deactivate.2) !! 3 = Some p ∧
     assign p (set_Name "Mallory") (heap Demo.deactivate.2) = Some h' ∧
     Name <$> deref h' p ≠ Name <$> deref (heap Demo.deactivate.2) p).
Proof.
  split.
  - eexists. split; [vm_compute; reflexivity|].
    vm_compute. intros H. discriminate H.
  - eexists _, _. split; [vm_compute; reflexivity|].
    split; [vm_compute; reflexivity|].
    split; [vm_compute; reflexivity|].
    vm_compute. intros H. discriminate H.
Qed.

(** C6, amended.  [getAllUsers] does not change the world and returns a
    new slice of exactly the pointers the map holds, so the entities are
    shared with the store: after a later successful [updateUser] the
    updated entity, read through the slice, has its new field values
    while every other element reads as before; a later [createUser] of
    an object that is not in the slice leaves everything read through
    the slice as it was; and a field assigned through an element of the
    slice is assigned to the entity the map holds. *)
Theorem getAllUsers_shares_entities order w :
  range_order (users (server w)) order →
  (getAllUsers order w).2 = w ∧
  (∀ p, p ∈ (getAllUsers order w).1 ↔ ∃ k, users (server w) !! k = Some p) ∧
  (∀ d id updates r w',
     updateUser d id updates w = Some ((r, true), w') →
     r ∈ (getAllUsers order w).1 ∧
     (∀ p, p ∈ (getAllUsers order w).1 → p ≠ r →
        deref (heap w') p = deref (heap w) p) ∧
     ∃ u up, deref (heap w) r = Some u ∧ deref (heap w) updates = Some up ∧
       deref (heap w') r = Some (updated up (GoTime.Now d (clock w)) u)) ∧
  (∀ d1 d2 c r w',
     createUser d1 d2 c w = Some (r, w') →
     c ∉ (getAllUsers order w).1 →
     ∀ p, p ∈ (getAllUsers order w).1 → deref (heap w') p = deref (heap w) p) ∧
  (∀ p f h',
     p ∈ (getAllUsers order w).1 →
     assign p f (heap w) = Some h' →
     ∃ k u, users (server w) !! k = Some p ∧ deref (heap w) p = Some u ∧
       deref h' p = Some (f u)).
Proof.
  intros Ho. split; [by rewrite getAllUsers_eq|].
  split; [intros p; by apply getAllUsers_elem|].
  split; [|split].
  - intros d id updates r w' H.
    apply updateUser_inv in H as (l & u & up & Hid & Hl & Hup & -> & ->).
    cbn [heap clock server].
    split; [apply getAllUsers_elem; [done|by exists id]|].
    split.
    + intros p _ Hne. by apply deref_insert_ne.
    + exists u, up. rewrite !deref_Some, lookup_insert_eq. done.
  - intros d1 d2 c r w' H Hc p Hp.
    apply createUser_inv in H as (l & u & -> & Hl & -> & ->).
    cbn [heap clock server].
    apply deref_insert_ne. by intros ->.
  - intros p f h' Hp H.
    apply getAllUsers_elem in Hp as [k Hk]; [|done].
    unfold assign in H. destruct p as [l|]; [|done]. simpl in H.
    destruct (heap w !! l) as [u|] eqn:Hl; [|done]. simpl in H.
    exists k, u. rewrite !deref_Some. simplify_eq.
    by rewrite lookup_insert_eq.
Qed.

Lemma getAllUsers_shares_entities_witness :
  (getAllUsers (map_to_list (users (server Demo.deactivate.2))) Demo.deactivate.2).2
  = Demo.deactivate.2 ∧
  ∃ w',
    updateUser 1 1 (Some Demo.deactivate.1) Demo.deactivate.2
      = Some ((Some 1%positive, true), w') ∧
    deref (heap w') (Some 2%positive)
      = deref (heap Demo.deactivate.2) (Some 2%positive).
Proof.
  destruct (getAllUsers_shares_entities
              (map_to_list (users (server Demo.deactivate.2)))
              Demo.deactivate.2 (range_order_canonical _))
    as (Hw & He & Hu & _ & _).
  split; [exact Hw|].
  assert (∃ w', updateUser 1 1 (Some Demo.deactivate.1) Demo.deactivate.2
                = Some ((Some 1%positive, true), w')) as [w' Hr]
    by (eexists; vm_compute; reflexivity).
  exists w'. split; [exact Hr|].
  destruct (Hu _ _ _ _ _ Hr) as (_ & Hother & _).
  apply Hother.
  - apply He. exists 2. vm_compute. reflexivity.
  - intros H. discriminate H.
Defined.

(** ** createUser followed by getUser and getAllUsers *)




(** ** Sequences of calls: the store invariant *)

Lemma valid_clock_mono h c c' s :
  valid (mkWorld h c s) → c ≤ c' → valid (mkWorld h c' s).
Proof.
  intros Hv Hle k p Hk. destruct (Hv k p Hk) as (l & u & -> & Hl & Hu).
  exists l, u. simpl in *. split_and!; [done|done|lia].
Qed.

Lemma count_loop_returns h order : ∀ acc,
  Forall (λ kv : Z * option positive, is_Some (deref h kv.2)) order →
  is_Some (foldl (count_user h) (Some acc) order).
Proof.
  induction order as [|kv order IH]; intros [a i] Hall; [by eexists|].
  apply Forall_cons in Hall as [[u Hu] Hall].
  cbn [foldl]. rewrite (count_user_live h a i kv u Hu).
  destruct (decide (Status u = "active")); by apply IH.
Qed.


Lemma createUser_inv_step d1 d2 user w :
  store_inv w → call_ok (OCreate d1 d2 user) w →
  nextID (server w) + 1 ≤ GoInt.int_max →
  ∃ u w', createUser d1 d2 user w = Some (user, w') ∧
    store_inv w' ∧
    nextID (server w') = nextID (server w) + 1 ∧
    deref (heap w') user = Some u ∧ ID u = nextID (server w).
Proof.
  intros (Hv & Hids & [Hn Hkeys]) [[u Hu] Hfresh] Hb.
  destruct user as [l|]; [|done]. rewrite deref_Some in Hu.
  pose proof (createUser_eq d1 d2 l u w Hu) as Hc. cbv zeta in Hc.
  assert (GoInt.int_min ≤ nextID (server w)) by (unfold GoInt.int_min; lia).
  eexists _, _. split; [exact Hc|].
  split; [|split; [|split]].
  - split; [by eapply createUser_valid|]. split.
    + intros k p Hk. cbn [heap clock server users with_users] in Hk |- *.
      destruct (decide (nextID (server w) = k)) as [Heq|Hne].
      * subst k. rewrite lookup_insert_eq in Hk. simplify_eq.
        eexists. rewrite deref_Some, lookup_insert_eq. done.
      * rewrite lookup_insert_ne in Hk by done.
        destruct (Hids k p Hk) as (u' & Hu' & Hid).
        exists u'. split; [|done].
        rewrite deref_insert_ne; [done|]. intros ->. by apply (Hfresh k).
    + unfold counter_ahead.
      cbn [heap clock server users nextID with_users with_nextID].
      rewrite incr_no_wrap by lia. split; [lia|].
      intros k [p Hk].
      destruct (decide (nextID (server w) = k)) as [Heq|Hne]; [lia|].
      rewrite lookup_insert_ne in Hk by done.
      specialize (Hkeys k (ex_intro _ p Hk)). lia.
  - cbn [server nextID with_users with_nextID]. apply incr_no_wrap. lia.
  - cbn [heap]. rewrite deref_Some. apply lookup_insert_eq.
  - done.
Qed.

Lemma updateUser_inv_step d id updates w :
  store_inv w → call_ok (OUpdate d id updates) w →
  ∃ r w', updateUser d id updates w = Some (r, w') ∧
    store_inv w' ∧ nextID (server w') = nextID (server w).
Proof.
  intros (Hv & Hids & Hctr) Hok. simpl in Hok.
  destruct (users (server w) !! id) as [p|] eqn:Hid.
  - destruct (Hv id p Hid) as (l & u & -> & Hl & Hle).
    destruct Hok as [up Hup]; [by eexists|].
    pose proof (updateUser_eq d id l u updates up w Hid Hl Hup) as Hr.
    cbv zeta in Hr.
    eexists _, _. split; [exact Hr|]. split; [|done].
    split; [by eapply updateUser_valid|]. split; [|done].
    intros k p Hk. cbn [heap clock server] in Hk |- *.
    destruct (Hids k p Hk) as (u' & Hu' & Hidk).
    destruct (decide (p = Some l)) as [->|Hne].
    + rewrite deref_Some in Hu'. simplify_eq.
      eexists. rewrite deref_Some, lookup_insert_eq. done.
    + exists u'. by rewrite deref_insert_ne.
  - eexists _, _. split; [by apply updateUser_absent|].
    split; [|done]. by split_and!.
Qed.

Lemma getStats_inv_step d order w :
  store_inv w → call_ok (OStats d order) w →
  ∃ st w', getStats d order w = Some (st, w') ∧
    store_inv w' ∧ nextID (server w') = nextID (server w).
Proof.
  intros (Hv & Hids & Hctr) Hok. simpl in Hok.
  destruct (count_loop_returns (heap w) order (0, 0)
              (valid_range_live w order Hv Hok)) as [c Hc].
  unfold getStats. rewrite Hc. simpl.
  eexists _, _. split; [done|]. simpl. split; [|done].
  split; [|by split].
  destruct w as [h c0 s]. apply (valid_clock_mono h c0); [done|apply Now_ge].
Qed.




Lemma calls_ok_app_l ops rest : ∀ w, calls_ok (ops ++ rest) w → calls_ok ops w.
Proof.
  induction ops as [|o ops IH]; intros w H; [done|].
  destruct H as [Hok Hrest]. split; [done|].
  intros r Hr. apply IH. by apply Hrest.
Qed.



Example incr_wraps_at_max : GoInt.incr GoInt.int_max = GoInt.int_min.
Proof. reflexivity. Qed.

(** Why the number of [createUser] calls is bounded below: at the largest
    [int] the counter wraps, and the id just handed out is then above
    the counter. *)
Lemma createUser_wraps_counter d1 d2 l u w :
  heap w !! l = Some u →
  nextID (server w) = GoInt.int_max →
  ∃ w' u',
    createUser d1 d2 (Some l) w = Some (Some l, w') ∧
    deref (heap w') (Some l) = Some u' ∧
    ID u' = GoInt.int_max ∧
    nextID (server w') = GoInt.int_min ∧
    nextID (server w') < ID u'.
Proof.
  intros Hl Hn. eexists _, _. split; [by apply createUser_eq|].
  cbn [heap server nextID with_users with_nextID].
  rewrite deref_Some, lookup_insert_eq, Hn. split; [done|].
  split; [done|]. split; [done|]. done.
Qed.






(** A nil change set for an existing id makes [updateUser] panic, so a
    sequence with such a call does not return. *)
Example updateUser_nil_change_set_panics :
  run [OCreate 1 1 (Some (Demo.lone "").1); OUpdate 1 1 None] (Demo.lone "").2
  = None.
Proof. vm_compute. reflexivity. Qed.



(** [valid] is an invariant of the program: it holds after any sequence
    of calls that returned, whatever objects the callers pass. *)
Lemma exec_valid o w r : valid w → exec o w = Some r → valid r.2.
Proof.
  intros Hv H. destruct o as [d1 d2 user|id|order|d id updates|d order];
    unfold exec in H.
  - destruct (createUser d1 d2 user w) as [[p w']|] eqn:Hc; [|done].
    simpl in H. simplify_eq. simpl. by eapply createUser_valid.
  - simplify_eq. unfold getUser. by destruct (users (server w) !! id).
  - simplify_eq. by rewrite getAllUsers_eq.
  - destruct (updateUser d id updates w) as [[[p b] w']|] eqn:Hu; [|done].
    simpl in H. simplify_eq. simpl. by eapply updateUser_valid.
  - unfold getStats in H.
    destruct (foldl (count_user (heap w)) (Some (0, 0)) order); [|done].
    simpl in H. simplify_eq. simpl.
    destruct w as [h c0 s]. apply (valid_clock_mono h c0); [done|apply Now_ge].
Qed.

Lemma run_valid ops : ∀ w ids w',
  valid w → run ops w = Some (ids, w') → valid w'.
Proof.
  induction ops as [|o ops IH]; intros w ids w' Hv H.
  - simpl in H. by simplify_eq.
  - cbn [run] in H. destruct (exec o w) as [r|] eqn:Hr; [|done]. simpl in H.
    destruct (run ops r.2) as [[ids' w'']|] eqn:Hrun; [|done].
    simpl in H. simplify_eq. eapply IH; [|done]. by eapply exec_valid.
Qed.

Lemma reachable_valid d host port h c ops ids w :
  run ops (NewServer d host port h c) = Some (ids, w) → valid w.
Proof. apply run_valid, NewServer_valid. Qed.


(** ** Objects of the handlers: allocation and release *)

Lemma with_object_fresh u w : heap w !! (with_object u w).1 = None.
Proof.
  unfold with_object, alloc. simpl.
  apply not_elem_of_dom, is_fresh.
Qed.

Lemma with_object_eq u w :
  (with_object u w).2
  = mkWorld (<[(with_object u w).1 := u]> (heap w)) (clock w) (server w).
Proof. done. Qed.

Lemma valid_unstored w l : valid w → heap w !! l = None → unstored (Some l) w.
Proof.
  intros Hv Hl k Hk. destruct (Hv k _ Hk) as (l' & u & Heq & Hl' & _).
  simplify_eq.
Qed.

Lemma store_inv_alloc w l u :
  store_inv w → heap w !! l = None →
  store_inv (mkWorld (<[l := u]> (heap w)) (clock w) (server w)).
Proof.
  intros (Hv & Hids & Hctr) Hl.
  pose proof (valid_unstored w l Hv Hl) as Hfresh.
  split; [|split; [|done]].
  - intros k p Hk. destruct (Hv k p Hk) as (l' & u' & -> & Hl' & Hle).
    exists l', u'. cbn [heap clock]. rewrite lookup_insert_ne by congruence. done.
  - intros k p Hk. destruct (Hids k p Hk) as (u' & Hu' & Hid).
    exists u'. cbn [heap]. rewrite deref_insert_ne; [done|].
    intros ->. by apply (Hfresh k).
Qed.

Lemma deref_delete_ne h l p : p ≠ Some l → deref (delete l h) p = deref h p.
Proof.
  intros Hne. destruct p as [l'|]; [|done].
  rewrite !deref_Some. apply lookup_delete_ne. congruence.
Qed.

Lemma store_inv_drop w l :
  store_inv w → unstored (Some l) w → store_inv (drop_object l w).
Proof.
  intros (Hv & Hids & Hctr) Hfresh. split; [|split; [|done]].
  - intros k p Hk. cbn [drop_object server] in Hk.
    destruct (Hv k p Hk) as (l' & u' & -> & Hl' & Hle).
    exists l', u'. cbn [drop_object heap clock].
    rewrite lookup_delete_ne; [done|]. intros ->. by apply (Hfresh k).
  - intros k p Hk. cbn [drop_object server] in Hk.
    destruct (Hids k p Hk) as (u' & Hu' & Hid).
    exists u'. cbn [drop_object heap]. rewrite deref_delete_ne; [done|].
    intros ->. by apply (Hfresh k).
Qed.

(** ** [keeps_users] *)

Lemma keeps_users_refl w : keeps_users w w.
Proof. intros k l u Hk Hl. split; [done|]. by exists u. Qed.

Lemma keeps_users_trans w1 w2 w3 :
  keeps_users w1 w2 → keeps_users w2 w3 → keeps_users w1 w3.
Proof.
  intros H12 H23 k l u Hk Hl.
  destruct (H12 k l u Hk Hl) as (Hk2 & u2 & Hl2 & Hid2 & Hc2).
  destruct (H23 k l u2 Hk2 Hl2) as (Hk3 & u3 & Hl3 & Hid3 & Hc3).
  split; [done|]. exists u3. split; [done|]. split; congruence.
Qed.

Lemma keeps_users_clock w c :
  keeps_users w (mkWorld (heap w) c (server w)).
Proof. intros k l u Hk Hl. split; [done|]. by exists u. Qed.

Lemma keeps_users_create d1 d2 l u w :
  store_inv w → heap w !! l = Some u → unstored (Some l) w →
  ∀ w', createUser d1 d2 (Some l) w = Some (Some l, w') → keeps_users w w'.
Proof.
  intros (Hv & Hids & [Hn Hkeys]) Hl Hfresh w' Hc.
  rewrite (createUser_eq d1 d2 l u w Hl) in Hc. simplify_eq.
  intros k l' u' Hk Hl'. cbn [heap server users with_users with_nextID].
  assert (k ≠ nextID (server w)) as Hne.
  { intros ->. specialize (Hkeys _ (ex_intro _ _ Hk)). lia. }
  assert (l' ≠ l) as Hne' by (intros ->; by apply (Hfresh k)).
  rewrite lookup_insert_ne by done. split; [done|].
  exists u'. by rewrite lookup_insert_ne.
Qed.

Lemma keeps_users_update d id updates w r w' :
  updateUser d id updates w = Some (r, w') → keeps_users w w'.
Proof.
  intros H. destruct r as [p [|]].
  - apply updateUser_inv in H as (l & u & up & Hid & Hl & Hup & -> & ->).
    intros k l' u' Hk Hl'. cbn [heap server]. split; [done|].
    destruct (decide (l' = l)) as [->|Hne].
    + rewrite lookup_insert_eq. eexists. split; [done|]. by simplify_eq.
    + exists u'. by rewrite lookup_insert_ne.
  - destruct (users (server w) !! id) as [q|] eqn:Hid.
    + destruct (deref (heap w) q) as [u|] eqn:Hq.
      * destruct q as [l|]; [|done]. rewrite deref_Some in Hq.
        destruct (deref (heap w) updates) as [up|] eqn:Hup.
        -- by rewrite (updateUser_eq d id l u updates up w Hid Hq Hup) in H.
        -- by rewrite (updateUser_nil d id (Some l) updates w) in H.
      * by rewrite (updateUser_dangling d id q updates w) in H.
    + rewrite updateUser_absent in H by done. simplify_eq.
      apply keeps_users_refl.
Qed.

(** ** The equations of the handlers *)

Lemma world_eta w : mkWorld (heap w) (clock w) (server w) = w.
Proof. by destruct w. Qed.

Lemma drop_with_object u w : drop_object (with_object u w).1 (with_object u w).2 = w.
Proof.
  unfold drop_object. rewrite with_object_eq. cbn [heap clock server].
  rewrite delete_insert_id by apply with_object_fresh. apply world_eta.
Qed.

Lemma handleCreateUser_eq env r user w :
  Body r = Some user → Name user ≠ "" → Email user ≠ "" →
  handleCreateUser env r w =
    Some ([json_header; WriteHeader http.StatusCreated;
           Encode (JUser (Some (created (nextID (server w))
                                  (GoTime.Now (env_tick1 env) (clock w))
                                  (GoTime.Now (env_tick2 env)
                                     (GoTime.Now (env_tick1 env) (clock w)))
                                  user)))],
          mkWorld
            (<[(with_object user w).1 :=
                 created (nextID (server w))
                   (GoTime.Now (env_tick1 env) (clock w))
                   (GoTime.Now (env_tick2 env)
                      (GoTime.Now (env_tick1 env) (clock w)))
                   user]> (heap w))
            (GoTime.Now (env_tick2 env) (GoTime.Now (env_tick1 env) (clock w)))
            (with_users
               (<[nextID (server w) := Some (with_object user w).1]>
                  (users (server w)))
               (with_nextID (GoInt.incr (nextID (server w))) (server w)))).
Proof.
  intros Hb Hn He. unfold handleCreateUser. rewrite Hb.
  rewrite decide_False by (intros [?|?]; done).
  cbv zeta.
  rewrite (createUser_eq _ _ (with_object user w).1 user (with_object user w).2)
    by (rewrite with_object_eq; apply lookup_insert_eq).
  cbn [mbind option_bind fst snd heap clock server].
  rewrite with_object_eq. cbn [heap clock server].
  rewrite deref_Some, lookup_insert_eq, insert_insert_eq. done.
Qed.

Lemma handleUpdateUser_absent env r id updates w :
  Body r = Some updates → users (server w) !! id = None →
  handleUpdateUser env r id w
  = Some ([Error "User not found" http.StatusNotFound], w).
Proof.
  intros Hb Hid. unfold handleUpdateUser. rewrite Hb. cbv zeta.
  rewrite updateUser_absent by done.
  cbn [mbind option_bind fst snd]. by rewrite drop_with_object.
Qed.

Lemma handleUpdateUser_found env r id updates l u w :
  Body r = Some updates →
  users (server w) !! id = Some (Some l) → heap w !! l = Some u →
  handleUpdateUser env r id w
  = Some ([json_header;
           Encode (JUser (Some (updated updates
                                  (GoTime.Now (env_tick1 env) (clock w)) u)))],
          mkWorld
            (<[l := updated updates (GoTime.Now (env_tick1 env) (clock w)) u]>
               (heap w))
            (GoTime.Now (env_tick1 env) (clock w)) (server w)).
Proof.
  intros Hb Hid Hl. unfold handleUpdateUser. rewrite Hb. cbv zeta.
  pose proof (with_object_fresh updates w) as Hfresh.
  assert ((with_object updates w).1 ≠ l) as Hne by congruence.
  rewrite (updateUser_eq _ id l u (Some (with_object updates w).1) updates
             (with_object updates w).2).
  - cbn [mbind option_bind fst snd heap clock server]. unfold drop_object.
    cbn [heap clock server]. rewrite with_object_eq. cbn [heap clock server].
    rewrite deref_Some, lookup_insert_eq.
    rewrite delete_insert_ne, delete_insert_id by done. done.
  - done.
  - rewrite with_object_eq. cbn [heap]. by rewrite lookup_insert_ne.
  - rewrite with_object_eq. cbn [heap]. rewrite deref_Some. apply lookup_insert_eq.
Qed.

Lemma keeps_users_alloc w l u :
  heap w !! l = None →
  keeps_users w (mkWorld (<[l := u]> (heap w)) (clock w) (server w)).
Proof.
  intros Hl k l' u' Hk Hl'. split; [done|]. exists u'. cbn [heap].
  rewrite lookup_insert_ne by congruence. done.
Qed.

Lemma keeps_users_drop w l :
  unstored (Some l) w → keeps_users w (drop_object l w).
Proof.
  intros Hfresh k l' u' Hk Hl'. split; [done|]. exists u'.
  cbn [drop_object heap]. rewrite lookup_delete_ne; [done|].
  intros ->. by apply (Hfresh k).
Qed.

Lemma getStats_world d order w st w' :
  getStats d order w = Some (st, w') →
  w' = mkWorld (heap w) (GoTime.Now d (clock w)) (server w).
Proof.
  unfold getStats. intros H.
  destruct (foldl (count_user (heap w)) (Some (0, 0)) order); [|done].
  simpl in H. by simplify_eq.
Qed.

Lemma updateUser_server d id updates w r w' :
  updateUser d id updates w = Some (r, w') → server w' = server w.
Proof.
  intros H. destruct r as [p [|]].
  - by apply updateUser_inv in H as (? & ? & ? & ? & ? & ? & ? & ->).
  - destruct (users (server w) !! id) as [q|] eqn:Hid.
    + destruct (deref (heap w) q) as [u|] eqn:Hq.
      * destruct q as [l|]; [|done]. rewrite deref_Some in Hq.
        destruct (deref (heap w) updates) as [up|] eqn:Hup.
        -- by rewrite (updateUser_eq d id l u updates up w Hid Hq Hup) in H.
        -- by rewrite (updateUser_nil d id (Some l) updates w) in H.
      * by rewrite (updateUser_dangling d id q updates w) in H.
    + rewrite updateUser_absent in H by done. by simplify_eq.
Qed.

(** ** One request keeps the store invariant *)

Lemma handleCreateUser_inv_step env r user w :
  store_inv w → nextID (server w) + 1 ≤ GoInt.int_max →
  Body r = Some user → Name user ≠ "" → Email user ≠ "" →
  ∃ evs w', handleCreateUser env r w = Some (evs, w') ∧
    store_inv w' ∧ keeps_users w w' ∧
    nextID (server w') = nextID (server w) + 1.
Proof.
  intros Hinv Hb Hbody Hn He.
  pose proof (with_object_fresh user w) as Hfresh.
  pose proof (store_inv_alloc w _ user Hinv Hfresh) as Hinv1.
  rewrite <- with_object_eq in Hinv1.
  assert (heap (with_object user w).2 !! (with_object user w).1 = Some user) as Hl
    by (rewrite with_object_eq; apply lookup_insert_eq).
  assert (unstored (Some (with_object user w).1) (with_object user w).2) as Hun.
  { destruct Hinv as (Hv & _). apply (valid_unstored w _ Hv Hfresh). }
  destruct (createUser_inv_step (env_tick1 env) (env_tick2 env)
              (Some (with_object user w).1) (with_object user w).2 Hinv1)
    as (u' & w' & Hc & Hinv' & Hnext & _).
  { split; [|done]. rewrite deref_Some, Hl. by eexists. }
  { done. }
  unfold handleCreateUser. rewrite Hbody.
  rewrite decide_False by (intros [?|?]; done).
  cbv zeta. rewrite Hc. cbn [mbind option_bind fst snd].
  eexists _, _. split; [done|]. split; [done|]. split; [|done].
  apply (keeps_users_trans w (with_object user w).2 w').
  - rewrite with_object_eq. by apply keeps_users_alloc.
  - by eapply keeps_users_create.
Qed.

Lemma handleUpdateUser_inv_step env r id w :
  store_inv w →
  ∃ evs w', handleUpdateUser env r id w = Some (evs, w') ∧
    store_inv w' ∧ keeps_users w w' ∧
    nextID (server w') = nextID (server w).
Proof.
  intros Hinv. unfold handleUpdateUser.
  destruct (Body r) as [updates|].
  - pose proof (with_object_fresh updates w) as Hfresh.
    pose proof (store_inv_alloc w _ updates Hinv Hfresh) as Hinv1.
    rewrite <- with_object_eq in Hinv1.
    destruct (updateUser_inv_step (env_tick1 env) id
                (Some (with_object updates w).1) (with_object updates w).2 Hinv1)
      as ([p ok] & w' & Hu & Hinv' & Hnext).
    { intros _. rewrite deref_Some, with_object_eq. cbn [heap].
      rewrite lookup_insert_eq. by eexists. }
    assert (unstored (Some (with_object updates w).1) w') as Hun.
    { intros k Hk. destruct Hinv as (Hv & _).
      apply (valid_unstored w _ Hv Hfresh k).
      by rewrite (updateUser_server _ _ _ _ _ _ Hu) in Hk. }
    cbv zeta. rewrite Hu. cbn [mbind option_bind fst snd].
    exists (if ok then [json_header; Encode (JUser (deref (heap w') p))]
            else [Error "User not found" http.StatusNotFound]),
           (drop_object (with_object updates w).1 w').
    split; [by destruct ok|].
    split; [by apply store_inv_drop|]. split; [|done].
    apply (keeps_users_trans w (with_object updates w).2);
      [rewrite with_object_eq; by apply keeps_users_alloc|].
    apply (keeps_users_trans _ w'); [by eapply keeps_users_update|].
    by apply keeps_users_drop.
  - eexists _, _. split; [done|]. split; [done|].
    split; [apply keeps_users_refl|done].
Qed.

Lemma slice_from_Some n s :
  (n ≤ String.length s)%nat → is_Some (slice_from n s).
Proof. intros H. unfold slice_from. rewrite decide_True by done. by eexists. Qed.

Lemma dispatch_inv_step Atoi q w :
  store_inv w → request_ok q w →
  nextID (server w) + 1 ≤ GoInt.int_max →
  ∃ r, dispatch Atoi q.1.1 q.1.2 q.2 w = Some r ∧
    store_inv r.2 ∧ keeps_users w r.2 ∧
    nextID (server w) ≤ nextID (server r.2) ≤ nextID (server w) + 1.
Proof.
  intros Hinv [Horder Hpath] Hb. destruct q as [[route env] r].
  cbn [fst snd] in *.
  assert (∀ evs, ∃ r0 : list Event * World,
            Some (evs, w) = Some r0 ∧ store_inv r0.2 ∧ keeps_users w r0.2 ∧
            nextID (server w) ≤ nextID (server r0.2) ≤ nextID (server w) + 1)
    as Hsame.
  { intros evs. eexists. split; [done|]. cbn [snd].
    split; [done|]. split; [apply keeps_users_refl|lia]. }
  destruct route; cbn [dispatch].
  - unfold handleUsers. destruct (decide (Method r = http.MethodGet)).
    + unfold handleGetUsers. rewrite getAllUsers_eq. cbn [fst snd]. apply Hsame.
    + destruct (decide (Method r = http.MethodPost)); [|apply Hsame].
      destruct (Body r) as [user|] eqn:Hbody;
        [|unfold handleCreateUser; rewrite Hbody; apply Hsame].
      destruct (decide (Name user = "" ∨ Email user = "")) as [Hbad|Hgood].
      * unfold handleCreateUser. rewrite Hbody, decide_True by done. apply Hsame.
      * destruct (handleCreateUser_inv_step env r user w Hinv Hb Hbody)
          as (evs & w' & Hc & Hinv' & Hkeep & Hnext).
        { intros ?. apply Hgood. by left. }
        { intros ?. apply Hgood. by right. }
        rewrite Hc. eexists. split; [done|]. cbn [snd].
        split; [done|]. split; [done|lia].
  - unfold handleUserByID.
    destruct (slice_from_Some _ _ (Hpath eq_refl)) as [idStr ->].
    cbn [mbind option_bind].
    destruct (Atoi idStr) as [id|]; [|apply Hsame].
    destruct (decide (Method r = http.MethodGet)).
    + unfold handleGetUser, getUser.
      destruct (users (server w) !! id); cbn [fst snd]; apply Hsame.
    + destruct (decide (Method r = http.MethodPut)); [|apply Hsame].
      destruct (handleUpdateUser_inv_step env r id w Hinv)
        as (evs & w' & Hu & Hinv' & Hkeep & Hnext).
      rewrite Hu. eexists. split; [done|]. cbn [snd].
      split; [done|]. split; [done|lia].
  - destruct (getStats_inv_step (env_tick1 env) (env_order env) w Hinv
                (Horder (or_introl eq_refl)))
      as (st & w' & Hs & Hinv' & Hnext).
    unfold handleStats. rewrite Hs. cbn [mbind option_bind fst snd].
    eexists. split; [done|]. cbn [snd]. split; [done|]. split; [|lia].
    rewrite (getStats_world _ _ _ _ _ Hs). apply keeps_users_clock.
Qed.

(** The user in a 201 answer carries the server's [nextID]. *)
Lemma post_users_creates_id env r user w u' w' :
  Method r = http.MethodPost →
  Body r = Some user → Name user ≠ "" → Email user ≠ "" →
  handleUsers env r w
    = Some ([json_header; WriteHeader http.StatusCreated;
             Encode (JUser (Some u'))], w') →
  ID u' = nextID (server w).
Proof.
  intros Hm Hbody Hn He. unfold handleUsers.
  rewrite decide_False by (rewrite Hm; done). rewrite decide_True by done.
  rewrite (handleCreateUser_eq env r user w Hbody Hn He).
  intros H. by simplify_eq.
Qed.

(** ** The handlers of [/users] *)

(** X1.  A [POST] to [/users] whose body decodes to a user with a name
    and an email answers 201 with the created user: its [ID] is the
    server's [nextID] whatever id the body carried, [Name] and [Email]
    are the body's, [Status] defaults to ["active"]; the user is a new
    object stored under a key that was free, so the map grows by one and
    every user stored before is still there; the store invariant is
    kept. *)
Theorem post_users_creates env r user w :
  store_inv w → nextID (server w) < GoInt.int_max →
  Method r = http.MethodPost →
  Body r = Some user → Name user ≠ "" → Email user ≠ "" →
  ∃ l u' w',
    handleUsers env r w
      = Some ([json_header; WriteHeader http.StatusCreated;
               Encode (JUser (Some u'))], w') ∧
    heap w !! l = None ∧ heap w' !! l = Some u' ∧
    ID u' = nextID (server w) ∧ Name u' = Name user ∧ Email u' = Email user ∧
    Status u' = (if decide (Status user = "") then "active" else Status user) ∧
    users (server w) !! ID u' = None ∧
    users (server w') = <[ID u' := Some l]> (users (server w)) ∧
    size (users (server w')) = S (size (users (server w))) ∧
    nextID (server w') = nextID (server w) + 1 ∧
    store_inv w' ∧ keeps_users w w'.
Proof.
  intros Hinv Hb Hm Hbody Hn He.
  destruct (handleCreateUser_inv_step env r user w Hinv ltac:(lia) Hbody Hn He)
    as (evs & w' & Hc & Hinv' & Hkeep & Hnext).
  pose proof Hc as Hc'.
  rewrite (handleCreateUser_eq env r user w Hbody Hn He) in Hc'.
  assert (users (server w) !! nextID (server w) = None) as Hfree.
  { destruct Hinv as (_ & _ & _ & Hkeys).
    destruct (users (server w) !! nextID (server w)) as [p|] eqn:Hk; [|done].
    specialize (Hkeys _ (ex_intro _ p Hk)). lia. }
  exists (with_object user w).1. eexists _, w'.
  unfold handleUsers. rewrite decide_False by (rewrite Hm; done).
  rewrite decide_True by done.
  split; [rewrite Hc; by injection Hc' as <- _|].
  injection Hc' as _ <-. cbn [heap server users nextID with_users with_nextID].
  split; [apply with_object_fresh|]. split; [apply lookup_insert_eq|].
  cbn [created ID Name Email Status].
  split_and!; try done. by apply map_size_insert_None.
Qed.

Lemma post_users_creates_witness :
  ∃ l u' w',
    handleUsers DemoHttp.env DemoHttp.post_dan Demo.seeded
      = Some ([json_header; WriteHeader 201; Encode (JUser (Some u'))], w') ∧
    heap w' !! l = Some u' ∧ ID u' = 4 ∧ Status u' = "active" ∧
    size (users (server w')) = 4%nat.
Proof.
  assert (store_inv Demo.seeded) as Hinv
    by (apply store_invb_sound; vm_compute; reflexivity).
  assert (nextID (server Demo.seeded) < GoInt.int_max) as Hb
    by (vm_compute; reflexivity).
  assert (Name (mkUser 99 "Dan" "dan@company.com" "" 0 0) ≠ "") as Hn
    by (intros H; discriminate H).
  assert (Email (mkUser 99 "Dan" "dan@company.com" "" 0 0) ≠ "") as He
    by (intros H; discriminate H).
  destruct (post_users_creates DemoHttp.env DemoHttp.post_dan _ Demo.seeded
              Hinv Hb eq_refl eq_refl Hn He)
    as (l & u' & w' & Hr & _ & Hl & Hid & _ & _ & Hs & _ & _ & Hsize & _).
  exists l, u', w'. split; [exact Hr|]. split; [exact Hl|].
  split; [rewrite Hid; vm_compute; reflexivity|].
  split; [exact Hs|]. rewrite Hsize. vm_compute. reflexivity.
Defined.



(** ** The handlers of [/users/{id}] *)

(** X3.  The order in which [handleUserByID] rejects a request: an id
    that [Atoi] cannot parse is answered 400 whatever the method and the
    body; with a parsed id, a method other than [GET] and [PUT] is
    answered 405; a [PUT] whose body does not decode is answered 400
    even when the id does not exist; a [GET], or a [PUT] with a decoded
    body, for an id that is not in the map is answered 404.  In all of
    these the world is left exactly as it was (the decoded change set
    leaves no trace). *)
Theorem handleUserByID_rejections Atoi env r w idStr :
  slice_from (String.length "/users/") (Path r) = Some idStr →
  (Atoi idStr = None →
     handleUserByID Atoi env r w
     = Some ([Error "Invalid user ID" http.StatusBadRequest], w)) ∧
  (∀ id, Atoi idStr = Some id →
     (Method r ≠ http.MethodGet → Method r ≠ http.MethodPut →
        handleUserByID Atoi env r w
        = Some ([Error "Method not allowed" http.StatusMethodNotAllowed], w)) ∧
     (Method r = http.MethodPut → Body r = None →
        handleUserByID Atoi env r w
        = Some ([Error "Invalid JSON" http.StatusBadRequest], w)) ∧
     (users (server w) !! id = None →
      Method r = http.MethodGet ∨ (Method r = http.MethodPut ∧ is_Some (Body r)) →
        handleUserByID Atoi env r w
        = Some ([Error "User not found" http.StatusNotFound], w))).
Proof.
  intros Hs. unfold handleUserByID. rewrite Hs. cbn [mbind option_bind].
  split; [by intros ->|]. intros id ->. split; [|split].
  - intros Hg Hp. by rewrite !decide_False.
  - intros Hp Hb. rewrite decide_False by (rewrite Hp; done).
    rewrite decide_True by done. unfold handleUpdateUser. by rewrite Hb.
  - intros Hid [Hg|[Hp [updates Hb]]].
    + rewrite decide_True by done. unfold handleGetUser, getUser. by rewrite Hid.
    + rewrite decide_False by (rewrite Hp; done). rewrite decide_True by done.
      by apply (handleUpdateUser_absent env r id updates).
Qed.

Lemma handleUserByID_rejections_witness :
  handleUserByID DemoHttp.atoi DemoHttp.env
    (mkRequest "DELETE" "/users/abc" None) Demo.seeded
  = Some ([Error "Invalid user ID" 400], Demo.seeded) ∧
  handleUserByID DemoHttp.atoi DemoHttp.env
    (DemoHttp.put_deactivate "/users/99999") Demo.seeded
  = Some ([Error "User not found" 404], Demo.seeded).
Proof.
  split.
  - exact (proj1 (handleUserByID_rejections DemoHttp.atoi DemoHttp.env
                    (mkRequest "DELETE" "/users/abc" None) Demo.seeded "abc"
                    eq_refl) eq_refl).
  - destruct (handleUserByID_rejections DemoHttp.atoi DemoHttp.env
                (DemoHttp.put_deactivate "/users/99999") Demo.seeded "99999"
                eq_refl) as [_ H].
    destruct (H 99999 eq_refl) as (_ & _ & H404).
    apply H404.
    + vm_compute. reflexivity.
    + right. split; [reflexivity|]. by eexists.
Defined.

(** X4.  A [PUT] to [/users/{id}] for an existing id with a decoded body
    answers with the updated user and changes nothing but that user:
    the non-empty [Name], [Email] and [Status] of the body are copied,
    [UpdatedAt] is the new clock reading, and [ID] and [CreatedAt] stay
    whatever the body carried for them; the map and [nextID] are
    unchanged and the decoded body leaves no object behind. *)
Theorem put_user_updates Atoi env r w idStr id p updates :
  valid w →
  slice_from (String.length "/users/") (Path r) = Some idStr →
  Atoi idStr = Some id →
  Method r = http.MethodPut →
  Body r = Some updates →
  users (server w) !! id = Some p →
  ∃ l u u',
    p = Some l ∧ heap w !! l = Some u ∧
    u' = updated updates (GoTime.Now (env_tick1 env) (clock w)) u ∧
    handleUserByID Atoi env r w
    = Some ([json_header; Encode (JUser (Some u'))],
            mkWorld (<[l := u']> (heap w))
                    (GoTime.Now (env_tick1 env) (clock w)) (server w)) ∧
    ID u' = ID u ∧ CreatedAt u' = CreatedAt u ∧
    UpdatedAt u ≤ UpdatedAt u'.
Proof.
  intros Hv Hs Ha Hm Hb Hid.
  destruct (Hv id p Hid) as (l & u & -> & Hl & Hle).
  exists l, u. eexists. split; [done|]. split; [done|]. split; [done|].
  split.
  - unfold handleUserByID. rewrite Hs. cbn [mbind option_bind]. rewrite Ha.
    rewrite decide_False by (rewrite Hm; done). rewrite decide_True by done.
    by apply handleUpdateUser_found.
  - cbn [updated ID CreatedAt UpdatedAt].
    pose proof (Now_ge (env_tick1 env) (clock w)). split_and!; [done|done|lia].
Qed.

Lemma put_user_updates_witness :
  ∃ u u',
    heap Demo.seeded !! 2%positive = Some u ∧
    handleUserByID DemoHttp.atoi DemoHttp.env
      (DemoHttp.put_deactivate "/users/2") Demo.seeded
    = Some ([json_header; Encode (JUser (Some u'))],
            mkWorld (<[2%positive := u']> (heap Demo.seeded)) 7
                    (server Demo.seeded)) ∧
    ID u' = 2 ∧ Status u' = "inactive" ∧ Name u' = Name u ∧
    CreatedAt u' = CreatedAt u.
Proof.
  assert (valid Demo.seeded) as Hv
    by (apply validb_sound; vm_compute; reflexivity).
  assert (users (server Demo.seeded) !! 2 = Some (Some 2%positive)) as Hid
    by (vm_compute; reflexivity).
  destruct (put_user_updates DemoHttp.atoi DemoHttp.env
              (DemoHttp.put_deactivate "/users/2") Demo.seeded "2" 2 _ _
              Hv eq_refl eq_refl eq_refl eq_refl Hid)
    as (l & u & u' & Hp & Hl & Hu' & Hr & Hi & Hc & _).
  injection Hp as <-.
  exists u, u'. split; [exact Hl|]. split; [exact Hr|].
  assert (ID u = 2) as Hid2.
  { assert (heap Demo.seeded !! 2%positive
            = Some (mkUser 2 "Bob Smith" "bob@company.com" "active" 3 4)) as Hl2
      by (vm_compute; reflexivity).
    rewrite Hl2 in Hl. by injection Hl as <-. }
  split; [by rewrite Hi|]. split; [by rewrite Hu'|].
  split; [by rewrite Hu'|exact Hc].
Defined.

(** X5.  Round trip through the handlers: after a [POST] to [/users]
    was answered 201 with a user, a [GET] of [/users/{id}] for that
    user's id answers with the same user and leaves the world as the
    [POST] left it. *)
Theorem post_then_get_round_trip Atoi env r user w :
  store_inv w → nextID (server w) < GoInt.int_max →
  Method r = http.MethodPost →
  Body r = Some user → Name user ≠ "" → Email user ≠ "" →
  ∃ u' w',
    handleUsers env r w
      = Some ([json_header; WriteHeader http.StatusCreated;
               Encode (JUser (Some u'))], w') ∧
    ∀ env2 r2 idStr,
      Method r2 = http.MethodGet →
      slice_from (String.length "/users/") (Path r2) = Some idStr →
      Atoi idStr = Some (ID u') →
      handleUserByID Atoi env2 r2 w'
      = Some ([json_header; Encode (JUser (Some u'))], w').
Proof.
  intros Hinv Hb Hm Hbody Hn He.
  destruct (handleCreateUser_inv_step env r user w Hinv ltac:(lia) Hbody Hn He)
    as (evs & w' & Hc & _).
  pose proof Hc as Hc'.
  rewrite (handleCreateUser_eq env r user w Hbody Hn He) in Hc'.
  eexists _, w'. split.
  - unfold handleUsers. rewrite decide_False by (rewrite Hm; done).
    rewrite decide_True by done. rewrite Hc. by injection Hc' as <- _.
  - intros env2 r2 idStr Hg Hs Ha.
    unfold handleUserByID. rewrite Hs. cbn [mbind option_bind]. rewrite Ha.
    rewrite decide_True by done. unfold handleGetUser, getUser.
    injection Hc' as _ <-.
    cbn [created ID server users with_users with_nextID heap].
    rewrite lookup_insert_eq. cbn [fst snd heap].
    by rewrite deref_Some, lookup_insert_eq.
Qed.

Lemma post_then_get_round_trip_witness :
  ∃ u' w',
    handleUsers DemoHttp.env DemoHttp.post_dan Demo.seeded
      = Some ([json_header; WriteHeader 201; Encode (JUser (Some u'))], w') ∧
    handleUserByID DemoHttp.atoi DemoHttp.env (DemoHttp.get "/users/4") w'
      = Some ([json_header; Encode (JUser (Some u'))], w').
Proof.
  assert (store_inv Demo.seeded) as Hinv
    by (apply store_invb_sound; vm_compute; reflexivity).
  assert (nextID (server Demo.seeded) < GoInt.int_max) as Hb
    by (vm_compute; reflexivity).
  assert (Name (mkUser 99 "Dan" "dan@company.com" "" 0 0) ≠ "") as Hn
    by (intros H; discriminate H).
  assert (Email (mkUser 99 "Dan" "dan@company.com" "" 0 0) ≠ "") as He
    by (intros H; discriminate H).
  destruct (post_then_get_round_trip DemoHttp.atoi DemoHttp.env DemoHttp.post_dan
              _ Demo.seeded Hinv Hb eq_refl eq_refl Hn He)
    as (u' & w' & Hpost & Hget).
  exists u', w'. split; [exact Hpost|].
  apply (Hget DemoHttp.env (DemoHttp.get "/users/4") "4" eq_refl eq_refl).
  assert (ID u' = 4) as ->; [|reflexivity].
  rewrite (post_users_creates_id DemoHttp.env DemoHttp.post_dan _ Demo.seeded
             u' w' eq_refl eq_refl Hn He Hpost).
  vm_compute. reflexivity.
Defined.

(** ** Sequences of requests *)

(** X6.  Served through the handlers, the store cannot be brought out of
    shape: for any sequence of requests to the three routes (fewer than
    the ids left below the largest [int]), every request is answered
    without a panic, and afterwards every stored user still carries the
    key it is stored under, [nextID] is above every key and has grown by
    at most one per request, and every user stored before is still
    stored under the same key with the same [ID] and [CreatedAt]
    (nothing is ever deleted or re-identified). *)
Theorem serve_keeps_store Atoi reqs : ∀ w,
  store_inv w → requests_ok Atoi reqs w →
  nextID (server w) + Z.of_nat (length reqs) ≤ GoInt.int_max →
  ∃ resps w',
    serve Atoi reqs w = Some (resps, w') ∧
    length resps = length reqs ∧
    store_inv w' ∧ keeps_users w w' ∧
    nextID (server w) ≤ nextID (server w')
      ≤ nextID (server w) + Z.of_nat (length reqs).
Proof.
  induction reqs as [|q reqs IH]; intros w Hinv Hok Hb.
  - exists [], w. split; [done|]. split; [done|]. split; [done|].
    split; [apply keeps_users_refl|]. simpl. lia.
  - destruct Hok as [Hq Hrest]. cbn [length] in Hb.
    destruct (dispatch_inv_step Atoi q w Hinv Hq) as (r & Hr & Hinv1 & Hk1 & Hn1);
      [lia|].
    destruct (IH r.2 Hinv1 (Hrest r Hr)) as (resps & w' & Hs & Hlen & Hinv' & Hk' & Hn');
      [lia|].
    cbn [serve]. rewrite Hr. cbn [mbind option_bind]. rewrite Hs.
    cbn [mbind option_bind fst snd].
    eexists _, _. split; [done|]. cbn [length]. split; [by rewrite Hlen|].
    split; [done|]. split; [by apply (keeps_users_trans w r.2 w')|lia].
Qed.

Lemma serve_keeps_store_witness :
  ∃ resps w',
    serve DemoHttp.atoi
      [(ToStats, DemoHttp.env, DemoHttp.get "/stats");
       (ToUsers, DemoHttp.env, DemoHttp.post_dan);
       (ToUserByID, DemoHttp.env, DemoHttp.put_deactivate "/users/4");
       (ToUsers, DemoHttp.env, DemoHttp.post_nameless)]
      Demo.seeded = Some (resps, w') ∧
    length resps = 4%nat ∧ ids_match_keys w' ∧ keeps_users Demo.seeded w' ∧
    nextID (server w') ≤ 8.
Proof.
  assert (store_inv Demo.seeded) as Hinv
    by (apply store_invb_sound; vm_compute; reflexivity).
  assert (requests_ok DemoHttp.atoi
            [(ToStats, DemoHttp.env, DemoHttp.get "/stats");
             (ToUsers, DemoHttp.env, DemoHttp.post_dan);
             (ToUserByID, DemoHttp.env, DemoHttp.put_deactivate "/users/4");
             (ToUsers, DemoHttp.env, DemoHttp.post_nameless)]
            Demo.seeded) as Hok.
  { split; [split; [intros _; apply range_order_canonical
                   |intros H; discriminate H]|].
    intros r1 Hr1. vm_compute in Hr1. injection Hr1 as <-.
    split; [split; [intros [H|[_ H]]; discriminate H
                   |intros H; discriminate H]|].
    intros r2 Hr2. vm_compute in Hr2. injection Hr2 as <-.
    split; [split; [intros [H|[H _]]; discriminate H
                   |intros _; vm_compute; lia]|].
    intros r3 Hr3. vm_compute in Hr3. injection Hr3 as <-.
    split; [split; [intros [H|[_ H]]; discriminate H
                   |intros H; discriminate H]|].
    intros r4 Hr4. exact I. }
  assert (nextID (server Demo.seeded) + Z.of_nat 4 ≤ GoInt.int_max) as Hb
    by (vm_compute; intros H; discriminate H).
  destruct (serve_keeps_store DemoHttp.atoi _ Demo.seeded Hinv Hok Hb)
    as (resps & w' & Hs & Hlen & (_ & Hids & _) & Hkeep & Hn).
  exists resps, w'. split; [exact Hs|]. split; [exact Hlen|].
  split; [exact Hids|]. split; [exact Hkeep|].
  assert (nextID (server Demo.seeded) = 4) as Hn4 by (vm_compute; reflexivity).
  rewrite Hn4 in Hn. cbn [length] in Hn. lia.
Defined.

(** ** seedData *)

Lemma createUser_fresh_step d1 d2 l u w :
  store_inv w → heap w !! l = Some u → unstored (Some l) w →
  nextID (server w) + 1 ≤ GoInt.int_max →
  ∃ w', createUser d1 d2 (Some l) w = Some (Some l, w') ∧
    users (server w') = <[nextID (server w) := Some l]> (users (server w)) ∧
    nextID (server w') = nextID (server w) + 1 ∧
    heap w' = <[l := created (nextID (server w)) (GoTime.Now d1 (clock w))
                        (GoTime.Now d2 (GoTime.Now d1 (clock w))) u]> (heap w) ∧
    store_inv w' ∧ keeps_users w w'.
Proof.
  intros Hinv Hl Hfresh Hb.
  destruct (createUser_inv_step d1 d2 (Some l) w Hinv) as (u' & w' & Hc & Hinv' & Hn & _).
  { split; [|done]. rewrite deref_Some, Hl. by eexists. }
  { done. }
  exists w'. split; [done|].
  pose proof (keeps_users_create d1 d2 l u w Hinv Hl Hfresh w' Hc) as Hkeep.
  rewrite (createUser_eq d1 d2 l u w Hl) in Hc. cbv zeta in Hc.
  injection Hc as <-. by cbn [heap server users nextID with_users with_nextID] in *.
Qed.

(** X7.  [seedData] on a well-formed server with three ids to spare
    returns and adds exactly three users, Alice, Bob and Carol, as three
    new objects under the keys [nextID], [nextID + 1] and [nextID + 2],
    with statuses ["active"], ["active"] and ["inactive"]; every user
    stored before is kept and the store invariant holds afterwards. *)
Theorem seedData_adds_three tick w :
  store_inv w → nextID (server w) + 3 ≤ GoInt.int_max →
  ∃ w' l1 l2 l3 u1 u2 u3,
    seedData tick w = Some w' ∧
    users (server w')
      = <[nextID (server w) + 2 := Some l3]>
          (<[nextID (server w) + 1 := Some l2]>
             (<[nextID (server w) := Some l1]> (users (server w)))) ∧
    heap w !! l1 = None ∧ heap w !! l2 = None ∧ heap w !! l3 = None ∧
    l1 ≠ l2 ∧ l1 ≠ l3 ∧ l2 ≠ l3 ∧
    heap w' !! l1 = Some u1 ∧ heap w' !! l2 = Some u2 ∧ heap w' !! l3 = Some u3 ∧
    (ID u1, Name u1, Status u1) = (nextID (server w), "Alice Johnson", "active") ∧
    (ID u2, Name u2, Status u2) = (nextID (server w) + 1, "Bob Smith", "active") ∧
    (ID u3, Name u3, Status u3) = (nextID (server w) + 2, "Carol Davis", "inactive") ∧
    nextID (server w') = nextID (server w) + 3 ∧
    size (users (server w')) = (size (users (server w)) + 3)%nat ∧
    store_inv w' ∧ keeps_users w w'.
Proof.
  intros Hinv Hb.
  set (a := new_User "Alice Johnson" "alice@company.com" "active").
  set (b := new_User "Bob Smith" "bob@company.com" "active").
  set (c := new_User "Carol Davis" "carol@company.com" "inactive").
  set (l1 := fresh (dom (heap w))).
  set (h1 := <[l1 := a]> (heap w)).
  set (l2 := fresh (dom h1)).
  set (h2 := <[l2 := b]> h1).
  set (l3 := fresh (dom h2)).
  set (h3 := <[l3 := c]> h2).
  assert (heap w !! l1 = None) as F1 by apply not_elem_of_dom, is_fresh.
  assert (h1 !! l2 = None) as F2 by apply not_elem_of_dom, is_fresh.
  assert (h2 !! l3 = None) as F3 by apply not_elem_of_dom, is_fresh.
  assert (l2 ≠ l1) as N21.
  { intros E. unfold h1 in F2. by rewrite E, lookup_insert_eq in F2. }
  assert (heap w !! l2 = None) as F2'.
  { unfold h1 in F2. by rewrite lookup_insert_ne in F2. }
  assert (l3 ≠ l2) as N32.
  { intros E. unfold h2 in F3. by rewrite E, lookup_insert_eq in F3. }
  assert (h1 !! l3 = None) as F3'.
  { unfold h2 in F3. by rewrite lookup_insert_ne in F3. }
  assert (l3 ≠ l1) as N31.
  { intros E. unfold h1 in F3'. by rewrite E, lookup_insert_eq in F3'. }
  assert (heap w !! l3 = None) as F3''.
  { unfold h1 in F3'. by rewrite lookup_insert_ne in F3'. }
  set (w0 := mkWorld h3 (clock w) (server w)).
  assert (store_inv w0) as Hinv0.
  { apply (store_inv_alloc (mkWorld h2 (clock w) (server w)) l3 c); [|done].
    apply (store_inv_alloc (mkWorld h1 (clock w) (server w)) l2 b); [|done].
    by apply (store_inv_alloc w l1 a). }
  assert (keeps_users w w0) as Hk0.
  { apply (keeps_users_trans _ (mkWorld h1 (clock w) (server w)));
      [by apply keeps_users_alloc|].
    apply (keeps_users_trans _ (mkWorld h2 (clock w) (server w)));
      [by apply (keeps_users_alloc (mkWorld h1 (clock w) (server w)))|].
    by apply (keeps_users_alloc (mkWorld h2 (clock w) (server w))). }
  pose proof Hinv as (Hv & _ & [Hn1 Hkeys]).
  assert (∀ l, heap w !! l = None → ∀ k, users (server w) !! k ≠ Some (Some l))
    as Hun by (intros l Hl; by apply valid_unstored).
  assert (∀ k, nextID (server w) ≤ k → users (server w) !! k = None) as Hfree.
  { intros k Hk. destruct (users (server w) !! k) as [p|] eqn:E; [|done].
    specialize (Hkeys k (ex_intro _ p E)). lia. }
  (* first user *)
  destruct (createUser_fresh_step (tick 0%nat) (tick 1%nat) l1 a w0 Hinv0)
    as (w1 & Hc1 & Hu1 & Hx1 & Hh1 & Hinv1 & Hk1).
  { unfold w0, h3, h2, h1. cbn [heap].
    rewrite lookup_insert_ne by congruence. rewrite lookup_insert_ne by congruence.
    apply lookup_insert_eq. }
  { intros k. by apply Hun. }
  { cbn [w0 server]. lia. }
  cbn [w0 server heap clock] in Hu1, Hx1, Hh1.
  (* second user *)
  destruct (createUser_fresh_step (tick 2%nat) (tick 3%nat) l2 b w1 Hinv1)
    as (w2 & Hc2 & Hu2 & Hx2 & Hh2 & Hinv2 & Hk2).
  { rewrite Hh1. unfold h3, h2.
    rewrite lookup_insert_ne by congruence. rewrite lookup_insert_ne by congruence.
    apply lookup_insert_eq. }
  { intros k. rewrite Hu1.
    destruct (decide (nextID (server w) = k)) as [->|?].
    - rewrite lookup_insert_eq. congruence.
    - rewrite lookup_insert_ne by done. by apply Hun. }
  { lia. }
  rewrite Hx1, Hu1 in Hu2. rewrite Hx1 in Hx2, Hh2.
  (* third user *)
  destruct (createUser_fresh_step (tick 4%nat) (tick 5%nat) l3 c w2 Hinv2)
    as (w3 & Hc3 & Hu3 & Hx3 & Hh3 & Hinv3 & Hk3).
  { rewrite Hh2, Hh1. unfold h3.
    rewrite lookup_insert_ne by congruence. rewrite lookup_insert_ne by congruence.
    apply lookup_insert_eq. }
  { intros k. rewrite Hu2.
    destruct (decide (nextID (server w) + 1 = k)) as [<-|?];
      [rewrite lookup_insert_eq; congruence|].
    rewrite lookup_insert_ne by done.
    destruct (decide (nextID (server w) = k)) as [<-|?];
      [rewrite lookup_insert_eq; congruence|].
    rewrite lookup_insert_ne by done. by apply Hun. }
  { lia. }
  rewrite Hx2, Hu2 in Hu3. rewrite Hx2 in Hx3, Hh3.
  exists w3, l1, l2, l3. eexists _, _, _.
  split.
  { unfold seedData, alloc_all, alloc. cbn [foldl fst snd app length seq zip zip_with].
    fold a b c. fold l1. fold h1. fold l2. fold h2. fold l3. fold h3. fold w0.
    cbn [mbind option_bind Nat.mul Nat.add]. rewrite Hc1.
    cbn [mbind option_bind snd]. rewrite Hc2.
    cbn [mbind option_bind snd]. by rewrite Hc3. }
  replace (nextID (server w) + 1 + 1) with (nextID (server w) + 2) in * by lia.
  split; [done|].
  split_and!; try done.
  - rewrite Hh3, Hh2, Hh1.
    rewrite lookup_insert_ne by congruence. rewrite lookup_insert_ne by congruence.
    apply lookup_insert_eq.
  - rewrite Hh3, Hh2. rewrite lookup_insert_ne by congruence. apply lookup_insert_eq.
  - rewrite Hh3. apply lookup_insert_eq.
  - done.
  - done.
  - done.
  - lia.
  - rewrite Hu3. rewrite !map_size_insert_None; [lia|..].
    + by apply Hfree.
    + rewrite lookup_insert_ne by lia. apply Hfree. lia.
    + rewrite !lookup_insert_ne by lia. apply Hfree. lia.
  - apply (keeps_users_trans w w0); [done|].
    apply (keeps_users_trans w0 w1); [done|].
    by apply (keeps_users_trans w1 w2).
Qed.

Lemma seedData_adds_three_witness :
  ∃ w',
    seedData (λ _, 1%N) Demo.seeded = Some w' ∧
    nextID (server w') = 7 ∧ size (users (server w')) = 6%nat ∧
    ids_match_keys w' ∧ keeps_users Demo.seeded w'.
Proof.
  assert (store_inv Demo.seeded) as Hinv
    by (apply store_invb_sound; vm_compute; reflexivity).
  assert (nextID (server Demo.seeded) + 3 ≤ GoInt.int_max) as Hb
    by (vm_compute; intros H; discriminate H).
  destruct (seedData_adds_three (λ _, 1%N) Demo.seeded Hinv Hb)
    as (w' & l1 & l2 & l3 & u1 & u2 & u3 & Hs & _ & _ & _ & _ & _ & _ & _
        & _ & _ & _ & _ & _ & _ & Hn & Hsize & (_ & Hids & _) & Hkeep).
  exists w'. split; [exact Hs|].
  split; [rewrite Hn; vm_compute; reflexivity|].
  split; [rewrite Hsize; vm_compute; reflexivity|].
  split; [exact Hids|exact Hkeep].
Defined.

(** ** Byte strings *)

Lemma prefix_app (p s : string) :
  String.prefix p s = true ↔ ∃ b, s = p +:+ b.
Proof.
  revert s. induction p as [|c p IH]; intros s.
  - split; [intros _; by exists s|intros _; by destruct s].
  - destruct s as [|c' s]; simpl.
    + split; [done|]. intros [b Hb]. discriminate Hb.
    + destruct (Ascii.ascii_dec c c') as [->|Hne].
      * rewrite IH. split; intros [b Hb]; exists b; [by rewrite Hb|].
        by injection Hb.
      * split; [done|]. intros [b Hb]. injection Hb as Hc _. by destruct Hne.
Qed.

Lemma Contains_app (s sub : string) :
  strings.Contains s sub = true ↔ ∃ a b, s = a +:+ sub +:+ b.
Proof.
  induction s as [|c s IH]; cbn [strings.Contains].
  - rewrite orb_false_r, prefix_app. split.
    + intros [b Hb]. by exists EmptyString, b.
    + intros (a & b & Hab). destruct a as [|? ?]; [by exists b|discriminate Hab].
  - rewrite orb_true_iff, prefix_app, IH. split.
    + intros [[b Hb]|(a & b & Hab)].
      * by exists EmptyString, b.
      * exists (String c a), b. simpl. by rewrite Hab.
    + intros (a & b & Hab). destruct a as [|c' a].
      * left. by exists b.
      * right. exists a, b. simpl in Hab. by injection Hab.
Qed.

Lemma length_app_string (a b : string) :
  String.length (a +:+ b) = (String.length a + String.length b)%nat.
Proof. induction a as [|c a IH]; simpl; [done|]. by rewrite IH. Qed.

Lemma substring_all (b : string) : String.substring 0 (String.length b) b = b.
Proof. induction b as [|c b IH]; simpl; [done|]. by rewrite IH. Qed.

Lemma substring_app_r (a b : string) :
  String.substring (String.length a) (String.length b) (a +:+ b) = b.
Proof. induction a as [|c a IH]; simpl; [apply substring_all|done]. Qed.

Lemma HasSuffix_app (a b : string) : strings.HasSuffix (a +:+ b) b = true.
Proof.
  unfold strings.HasSuffix. rewrite length_app_string.
  rewrite bool_decide_eq_true_2 by lia. simpl.
  apply bool_decide_eq_true_2.
  replace (String.length a + String.length b - String.length b)%nat
    with (String.length a) by lia.
  apply substring_app_r.
Qed.

Lemma Split_nonempty s sep : strings.Split s sep ≠ [].
Proof.
  induction s as [|a s IH]; simpl; [done|].
  destruct (decide (a = sep)); [done|].
  by destruct (strings.Split s sep).
Qed.

Lemma Split_single s sep :
  strings.Split s sep = [s] ∨ (2 ≤ length (strings.Split s sep))%nat.
Proof.
  induction s as [|a s IH]; simpl; [by left|].
  destruct (decide (a = sep)).
  - right. pose proof (Split_nonempty s sep).
    destruct (strings.Split s sep); [done|]. simpl. lia.
  - destruct IH as [->|IH]; [by left|].
    right. destruct (strings.Split s sep); simpl in *; lia.
Qed.

Lemma Split_two s sep local rest :
  strings.Split s sep = [local; rest] → s = local +:+ String sep rest.
Proof.
  revert local. induction s as [|a s IH]; intros local; simpl; [done|].
  destruct (decide (a = sep)) as [->|Hne].
  - intros H. injection H as <- H.
    destruct (Split_single s sep) as [Hs|Hs].
    + rewrite Hs in H. by simplify_eq.
    + rewrite H in Hs. simpl in Hs. lia.
  - destruct (strings.Split s sep) as [|p ps] eqn:Hs; [intros H; by simplify_eq|].
    intros H. injection H as <- ->.
    change (String a s = String a (p +:+ String sep rest)).
    f_equal. by apply IH.
Qed.

(** ** validateRecord and transformRecord *)

Lemma statusValid_elem status whitelist :
  Pipeline.statusValid status whitelist = true ↔ status ∈ whitelist.
Proof.
  induction whitelist as [|v rest IH]; simpl.
  - split; [done|]. intros H. by apply not_elem_of_nil in H.
  - rewrite elem_of_cons. destruct (decide (status = v)) as [->|Hne].
    + split; [by left|done].
    + rewrite IH. split; [by right|]. by intros [?|?].
Qed.

(** X8.  [validateRecord] accepts a record exactly when its trimmed name
    and trimmed email are not empty, its email (untrimmed) contains the
    byte ["@"] somewhere, and its status is, letter for letter, one of
    the entries of the whitelist. *)
Theorem validateRecord_accepts_iff lib dp record :
  Pipeline.validateRecord lib dp record = true ↔
    strings.TrimSpace lib (Pipeline.Name record) ≠ "" ∧
    strings.TrimSpace lib (Pipeline.Email record) ≠ "" ∧
    (∃ a b, Pipeline.Email record = a +:+ "@" +:+ b) ∧
    Pipeline.Status record ∈ Pipeline.statusWhitelist dp.
Proof.
  unfold Pipeline.validateRecord.
  rewrite <- Contains_app, <- statusValid_elem.
  destruct (decide (strings.TrimSpace lib (Pipeline.Name record) = ""));
    [split; [done|by intros (? & _)]|].
  destruct (decide (strings.TrimSpace lib (Pipeline.Email record) = ""));
    [split; [done|by intros (_ & ? & _)]|].
  destruct (strings.Contains (Pipeline.Email record) "@"); simpl;
    [|split; [done|by intros (_ & _ & ? & _)]].
  destruct (Pipeline.statusValid (Pipeline.Status record)
              (Pipeline.statusWhitelist dp)); simpl;
    [done|split; [done|by intros (_ & _ & _ & ?)]].
Qed.

(** X9.  What [transformRecord] does to the email, with [e] the trimmed,
    lower-cased email: if [e] already ends with the company domain it is
    kept; otherwise, if [e] has exactly one ["@"] (it splits in two),
    the part after the ["@"] is replaced by the company domain, so the
    result ends with the domain; otherwise (no ["@"], or more than one)
    [e] is kept as it is, without the domain.  [ID] and [CreatedAt] are
    never changed. *)
Theorem transformRecord_email lib dp record :
  let e := strings.ToLower lib (strings.TrimSpace lib (Pipeline.Email record)) in
  let out := Pipeline.transformRecord lib dp record in
  Pipeline.ID out = Pipeline.ID record ∧
  Pipeline.CreatedAt out = Pipeline.CreatedAt record ∧
  (strings.HasSuffix e (Pipeline.emailDomain dp) = true → Pipeline.Email out = e) ∧
  (strings.HasSuffix e (Pipeline.emailDomain dp) = false →
     (∀ local rest, strings.Split e strings.at_sign = [local; rest] →
        e = local +:+ "@" +:+ rest ∧
        Pipeline.Email out = local +:+ Pipeline.emailDomain dp ∧
        strings.HasSuffix (Pipeline.Email out) (Pipeline.emailDomain dp) = true) ∧
     (length (strings.Split e strings.at_sign) ≠ 2%nat → Pipeline.Email out = e)).
Proof.
  intros e out. unfold out, Pipeline.transformRecord. cbn [Pipeline.ID
    Pipeline.CreatedAt Pipeline.Email]. fold e.
  split; [done|]. split; [done|]. split.
  - intros ->. done.
  - intros ->. cbn [negb]. split.
    + intros local rest Hs. rewrite Hs. split; [|split; [done|apply HasSuffix_app]].
      apply (Split_two e strings.at_sign local rest Hs).
    + intros Hlen. destruct (strings.Split e strings.at_sign) as [|a [|b [|c l]]];
        try done.
Qed.

(** ** ProcessRecords *)

Lemma process_fold lib dp batch : ∀ v n,
  0 ≤ n → n + Z.of_nat (length batch) ≤ GoInt.int_max →
  foldl (Pipeline.process_one lib dp) (v, n) batch
  = (v ++ (Pipeline.transformRecord lib dp <$>
             filter (λ r, Pipeline.validateRecord lib dp r = true) batch),
     n + Z.of_nat (length (filter (λ r, Pipeline.validateRecord lib dp r ≠ true)
                                  batch))).
Proof.
  induction batch as [|r batch IH]; intros v n Hn Hb.
  - simpl. rewrite app_nil_r. f_equal. lia.
  - cbn [foldl length] in *. unfold Pipeline.process_one at 2. cbn [fst snd].
    rewrite !filter_cons.
    destruct (Pipeline.validateRecord lib dp r) eqn:Hv.
    + rewrite decide_True by done. rewrite decide_False by (intros H; by apply H).
      rewrite IH by lia. rewrite fmap_cons, <- app_assoc. done.
    + rewrite decide_False by done. rewrite decide_True by done.
      rewrite incr_no_wrap by (unfold GoInt.int_min; lia).
      rewrite IH by lia. cbn [length]. f_equal. lia.
Qed.

Lemma filter_split_count {A} (P : A → Prop) `{∀ x, Decision (P x)} (l : list A) :
  (length (filter P l) + length (filter (λ x, ¬ P x) l))%nat = length l.
Proof.
  induction l as [|x l IH]; [done|].
  rewrite !filter_cons. destruct (decide (P x)).
  - rewrite decide_False by (intros Hn; by apply Hn). simpl. lia.
  - rewrite decide_True by done. simpl. lia.
Qed.

Lemma batches_done lib dp records :
  0 < Pipeline.batchSize dp →
  Z.of_nat (length records) + Pipeline.batchSize dp ≤ GoInt.int_max →
  ∀ fuel i v n printed,
    0 ≤ i → 0 ≤ n →
    n + Z.of_nat (length (drop (Z.to_nat i) records)) ≤ GoInt.int_max →
    (Z.to_nat (Z.of_nat (length records) - i) < fuel)%nat →
    ∃ printed',
      Pipeline.batches fuel lib dp records i (v, n) printed
      = Pipeline.Done
          (v ++ (Pipeline.transformRecord lib dp <$>
                   filter (λ r, Pipeline.validateRecord lib dp r = true)
                          (drop (Z.to_nat i) records)),
           n + Z.of_nat
                 (length (filter (λ r, Pipeline.validateRecord lib dp r ≠ true)
                                 (drop (Z.to_nat i) records))),
           printed').
Proof.
  intros Hbs Hmax. induction fuel as [|fuel IH]; intros i v n printed Hi Hn Hb Hf;
    [lia|].
  cbn [Pipeline.batches]. cbv zeta.
  destruct (decide (i < Z.of_nat (length records))) as [Hlt|Hge].
  - assert (GoInt.wrap (i + Pipeline.batchSize dp) = i + Pipeline.batchSize dp) as Hw.
    { pose proof (incr_no_wrap (i + Pipeline.batchSize dp - 1)) as Hw.
      unfold GoInt.incr in Hw.
      replace (i + Pipeline.batchSize dp - 1 + 1) with (i + Pipeline.batchSize dp)
        in Hw by lia.
      apply Hw. unfold GoInt.int_min. lia. }
    rewrite Hw.
    set (end1 := if decide (i + Pipeline.batchSize dp > Z.of_nat (length records))
                 then Z.of_nat (length records) else i + Pipeline.batchSize dp).
    assert (i < end1 ≤ Z.of_nat (length records)) as Hend
      by (unfold end1; case_decide; lia).
    rewrite decide_True by lia.
    set (batch := take (Z.to_nat (end1 - i)) (drop (Z.to_nat i) records)).
    assert (drop (Z.to_nat i) records
            = batch ++ drop (Z.to_nat (i + Pipeline.batchSize dp)) records) as Hsplit.
    { unfold batch.
      rewrite <- (take_drop (Z.to_nat (end1 - i)) (drop (Z.to_nat i) records)) at 1.
      f_equal. rewrite drop_drop.
      replace (Z.to_nat i + Z.to_nat (end1 - i))%nat with (Z.to_nat end1) by lia.
      unfold end1. case_decide; [|done].
      rewrite !drop_ge by lia. done. }
    assert (length (drop (Z.to_nat i) records)
            = (length batch
               + length (drop (Z.to_nat (i + Pipeline.batchSize dp)) records))%nat)
      as Hlen by (rewrite Hsplit at 1; apply length_app).
    rewrite process_fold by lia.
    pose proof (length_filter (λ r, Pipeline.validateRecord lib dp r ≠ true) batch).
    destruct (IH (i + Pipeline.batchSize dp)
                (v ++ (Pipeline.transformRecord lib dp <$>
                         filter (λ r, Pipeline.validateRecord lib dp r = true) batch))
                (n + Z.of_nat
                       (length (filter (λ r, Pipeline.validateRecord lib dp r ≠ true)
                                       batch)))
                (printed ++ [(GoInt.wrap (i + 1), end1)]))
      as [printed' Hr]; [lia|lia|lia|lia|].
    exists printed'. rewrite Hr, Hsplit.
    rewrite !filter_app, fmap_app, length_app, <- app_assoc.
    do 3 f_equal. lia.
  - exists printed. rewrite drop_ge by lia. simpl. rewrite app_nil_r.
    do 3 f_equal. lia.
Qed.

(** X10.  For every positive batch size (with [len(records) + batchSize]
    within [int]) [ProcessRecords] returns, without an error, the
    transformed valid records in their original order, whatever the
    batch size: batching does not drop, repeat or reorder records.  The
    statistics count every record once: [TotalRecords] is the length of
    the input, [ValidRecords] the length of the output, and
    [ValidRecords + InvalidRecords = TotalRecords]; the duration is not
    negative. *)
Theorem ProcessRecords_batching fuel lib d1 d2 clock dp records :
  0 < Pipeline.batchSize dp →
  Z.of_nat (length records) + Pipeline.batchSize dp ≤ GoInt.int_max →
  (length records < fuel)%nat →
  ∃ stats printed,
    Pipeline.ProcessRecords fuel lib d1 d2 clock dp records
    = Pipeline.Done
        (stats,
         Pipeline.transformRecord lib dp <$>
           filter (λ r, Pipeline.validateRecord lib dp r = true) records,
         None, printed) ∧
    Pipeline.TotalRecords stats = Z.of_nat (length records) ∧
    Pipeline.ValidRecords stats
      = Z.of_nat (length (filter (λ r, Pipeline.validateRecord lib dp r = true)
                                 records)) ∧
    Pipeline.ValidRecords stats + Pipeline.InvalidRecords stats
      = Pipeline.TotalRecords stats ∧
    Pipeline.ProcessedAt stats = GoTime.Now d1 clock ∧
    0 ≤ Pipeline.Duration stats.
Proof.
  intros Hbs Hmax Hfuel.
  destruct (batches_done lib dp records Hbs Hmax fuel 0 [] 0 [])
    as [printed Hr];
    [lia|lia|change (Z.to_nat 0) with 0%nat; rewrite drop_0; lia|lia|].
  change (Z.to_nat 0) with 0%nat in Hr. rewrite drop_0 in Hr.
  unfold Pipeline.ProcessRecords. rewrite Hr. cbn [fst snd app].
  eexists _, printed. split; [done|].
  cbn [Pipeline.TotalRecords Pipeline.ValidRecords Pipeline.InvalidRecords
       Pipeline.ProcessedAt Pipeline.Duration].
  rewrite length_fmap.
  pose proof (filter_split_count (λ r, Pipeline.validateRecord lib dp r = true)
                records) as Hsum.
  split_and!; try done; try lia.
  unfold GoTime.Sub, GoTime.Now, GoInt.int_max, GoInt.int_min. lia.
Qed.

Lemma ProcessRecords_batching_witness :
  ∃ stats printed,
    Pipeline.ProcessRecords 5 Pipeline.demo_lib 1 1 0 Pipeline.NewDataProcessor
                            Pipeline.rawRecords
    = Pipeline.Done
        (stats,
         [Pipeline.mkRecord 4 "Bob Wilson" "bob@company.com" "active" 0],
         None, printed) ∧
    Pipeline.TotalRecords stats = 4 ∧
    Pipeline.ValidRecords stats + Pipeline.InvalidRecords stats = 4.
Proof.
  assert (0 < Pipeline.batchSize Pipeline.NewDataProcessor) as Hbs
    by (vm_compute; reflexivity).
  assert (Z.of_nat (length Pipeline.rawRecords)
          + Pipeline.batchSize Pipeline.NewDataProcessor ≤ GoInt.int_max) as Hmax
    by (vm_compute; intros H; discriminate H).
  assert (length Pipeline.rawRecords < 5)%nat as Hfuel by (vm_compute; lia).
  destruct (ProcessRecords_batching 5 Pipeline.demo_lib 1 1 0
              Pipeline.NewDataProcessor Pipeline.rawRecords Hbs Hmax Hfuel)
    as (stats & printed & Hr & Ht & _ & Hsum & _).
  exists stats, printed. split; [exact Hr|]. split; [exact Ht|].
  rewrite Hsum. exact Ht.
Defined.

(** X11.  The batch size is not checked.  With a batch size of zero and
    at least one record the batch loop never advances, so
    [ProcessRecords] does not return, whatever the number of iterations
    allowed; with a negative batch size and at least one record the
    first [records[i:end]] panics. *)
Theorem ProcessRecords_bad_batch_size lib d1 d2 clock dp records :
  records ≠ [] →
  (Pipeline.batchSize dp = 0 →
   ∀ fuel, Pipeline.ProcessRecords fuel lib d1 d2 clock dp records
           = Pipeline.OutOfFuel) ∧
  (GoInt.int_min ≤ Pipeline.batchSize dp < 0 →
   ∀ fuel, Pipeline.ProcessRecords (S fuel) lib d1 d2 clock dp records
           = Pipeline.Panic).
Proof.
  intros Hne.
  assert (0 < Z.of_nat (length records)) as Hlen
    by (destruct records; [done|simpl; lia]).
  split.
  - intros Hz fuel.
    assert (∀ acc printed,
              Pipeline.batches fuel lib dp records 0 acc printed
              = Pipeline.OutOfFuel) as Hloop.
    { induction fuel as [|fuel IH]; intros acc printed; [done|].
      cbn [Pipeline.batches]. cbv zeta. rewrite Hz.
      rewrite decide_True by done.
      change (GoInt.wrap (0 + 0)) with 0.
      rewrite (decide_False (P := 0 > Z.of_nat (length records))) by lia.
      rewrite decide_True by lia.
      change (Z.to_nat (0 - 0)) with 0%nat. rewrite take_0. cbn [foldl].
      apply IH. }
    unfold Pipeline.ProcessRecords. by rewrite Hloop.
  - intros Hneg fuel. unfold Pipeline.ProcessRecords.
    cbn [Pipeline.batches]. cbv zeta.
    rewrite decide_True by done.
    assert (GoInt.wrap (0 + Pipeline.batchSize dp) = Pipeline.batchSize dp) as ->.
    { unfold GoInt.wrap, GoInt.int_min in *. rewrite Z.mod_small; lia. }
    rewrite (decide_False (P := Pipeline.batchSize dp > Z.of_nat (length records)))
      by lia.
    by rewrite decide_False by lia.
Qed.

Lemma ProcessRecords_bad_batch_size_witness :
  Pipeline.ProcessRecords 1000 Pipeline.demo_lib 1 1 0
    (Pipeline.mkProcessor "@company.com" [] ["active"] 0) Pipeline.rawRecords
  = Pipeline.OutOfFuel ∧
  Pipeline.ProcessRecords 1 Pipeline.demo_lib 1 1 0
    (Pipeline.mkProcessor "@company.com" [] ["active"] (-1)) Pipeline.rawRecords
  = Pipeline.Panic.
Proof.
  assert (Pipeline.rawRecords ≠ []) as Hne by (intros H; discriminate H).
  split.
  - exact (proj1 (ProcessRecords_bad_batch_size Pipeline.demo_lib 1 1 0
                    (Pipeline.mkProcessor "@company.com" [] ["active"] 0)
                    Pipeline.rawRecords Hne) eq_refl 1000%nat).
  - apply (proj2 (ProcessRecords_bad_batch_size Pipeline.demo_lib 1 1 0
                    (Pipeline.mkProcessor "@company.com" [] ["active"] (-1))
                    Pipeline.rawRecords Hne)).
    vm_compute. split; [intros H; discriminate H|reflexivity].
Defined.

(** X12.  Validation compares the status with the whitelist before the
    transformation lower-cases it.  So, when [ToLower] leaves the
    entries of the whitelist as they are (they are lower case in
    [NewDataProcessor]), every record [ProcessRecords] returns has a
    status that is an entry of the whitelist and equal to the status the
    record came with: a record whose status differs from an entry only
    in case is counted as invalid, never normalised. *)
Theorem ProcessRecords_statuses fuel lib d1 d2 clock dp records :
  (∀ v, v ∈ Pipeline.statusWhitelist dp → strings.ToLower lib v = v) →
  0 < Pipeline.batchSize dp →
  Z.of_nat (length records) + Pipeline.batchSize dp ≤ GoInt.int_max →
  (length records < fuel)%nat →
  ∃ stats out printed,
    Pipeline.ProcessRecords fuel lib d1 d2 clock dp records
    = Pipeline.Done (stats, out, None, printed) ∧
    Forall (λ r, Pipeline.Status r ∈ Pipeline.statusWhitelist dp) out ∧
    Pipeline.Status <$> out
    = Pipeline.Status <$>
        filter (λ r, Pipeline.validateRecord lib dp r = true) records ∧
    (∀ r, r ∈ records → Pipeline.Status r ∉ Pipeline.statusWhitelist dp →
          Pipeline.validateRecord lib dp r = false).
Proof.
  intros Hlow Hbs Hmax Hfuel.
  destruct (batches_done lib dp records Hbs Hmax fuel 0 [] 0 [])
    as [printed Hr];
    [lia|lia|change (Z.to_nat 0) with 0%nat; rewrite drop_0; lia|lia|].
  change (Z.to_nat 0) with 0%nat in Hr. rewrite drop_0 in Hr.
  unfold Pipeline.ProcessRecords. rewrite Hr. cbn [fst snd app].
  eexists _, _, printed. split; [done|].
  assert (∀ r, Pipeline.validateRecord lib dp r = true →
               Pipeline.Status r ∈ Pipeline.statusWhitelist dp) as Hval.
  { intros r Hv. unfold Pipeline.validateRecord in Hv.
    repeat case_decide; try done.
    destruct (strings.Contains (Pipeline.Email r) "@"); [|done].
    destruct (Pipeline.statusValid (Pipeline.Status r) (Pipeline.statusWhitelist dp))
      eqn:Hs; [|done].
    by apply statusValid_elem. }
  split; [|split].
  - apply Forall_fmap, Forall_forall. intros r Hin.
    apply list_elem_of_filter in Hin as [Hv _].
    unfold compose. cbn [Pipeline.transformRecord Pipeline.Status].
    rewrite Hlow; by apply Hval.
  - rewrite <- list_fmap_compose. apply list_fmap_ext. intros i r Hi.
    apply list_elem_of_lookup_2, list_elem_of_filter in Hi as [Hv _].
    cbn [compose Pipeline.transformRecord Pipeline.Status]. apply Hlow. by apply Hval.
  - intros r _ Hnot.
    destruct (Pipeline.validateRecord lib dp r) eqn:Hv; [|done].
    destruct Hnot. by apply Hval.
Qed.

Lemma ProcessRecords_statuses_witness :
  ∃ stats out printed,
    Pipeline.ProcessRecords 5 Pipeline.demo_lib 1 1 0 Pipeline.NewDataProcessor
                            Pipeline.rawRecords
    = Pipeline.Done (stats, out, None, printed) ∧
    Pipeline.Status <$> out = ["active"] ∧
    Pipeline.validateRecord Pipeline.demo_lib Pipeline.NewDataProcessor
      (Pipeline.mkRecord 1 "john doe" "JOHN@EXAMPLE.COM" "Active" 0) = false.
Proof.
  assert (∀ v, v ∈ Pipeline.statusWhitelist Pipeline.NewDataProcessor →
               strings.ToLower Pipeline.demo_lib v = v) as Hlow.
  { intros v Hv. cbn [Pipeline.statusWhitelist Pipeline.NewDataProcessor] in Hv.
    repeat (apply elem_of_cons in Hv as [->|Hv]; [reflexivity|]).
    by apply not_elem_of_nil in Hv. }
  assert (0 < Pipeline.batchSize Pipeline.NewDataProcessor) as Hbs
    by (vm_compute; reflexivity).
  assert (Z.of_nat (length Pipeline.rawRecords)
          + Pipeline.batchSize Pipeline.NewDataProcessor ≤ GoInt.int_max) as Hmax
    by (vm_compute; intros H; discriminate H).
  assert (length Pipeline.rawRecords < 5)%nat as Hfuel by (vm_compute; lia).
  destruct (ProcessRecords_statuses 5 Pipeline.demo_lib 1 1 0
              Pipeline.NewDataProcessor Pipeline.rawRecords Hlow Hbs Hmax Hfuel)
    as (stats & out & printed & Hr & _ & Hst & Hrej).
  exists stats, out, printed. split; [exact Hr|]. split; [exact Hst|].
  apply Hrej.
  - apply list_elem_of_In. left. reflexivity.
  - cbn [Pipeline.Status Pipeline.statusWhitelist Pipeline.NewDataProcessor].
    intros Hin.
    repeat (apply elem_of_cons in Hin as [Hin|Hin]; [discriminate Hin|]).
    by apply not_elem_of_nil in Hin.
Defined.

(** ** getStats after createUser *)

Lemma count_active_ext h h' (l : list (Z * option positive)) :
  Forall (λ kv, status_of h' kv = status_of h kv) l →
  count_active h' l = count_active h l ∧ count_other h' l = count_other h l.
Proof.
  unfold count_active, count_other. induction 1 as [|kv l Hkv _ [IHa IHo]]; [done|].
  rewrite !filter_cons, Hkv.
  repeat case_decide; cbn [length]; rewrite ?IHa, ?IHo; try done;
    exfalso; tauto.
Qed.

(** X13.  Creating a user moves the statistics by exactly one: on a
    well-formed store, after [createUser] of a new object, [getStats]
    reports one more user in total; the new user is counted as active
    when the candidate's status was empty or ["active"], and as inactive
    for any other status; the other counter is unchanged. *)
Theorem getStats_after_createUser d1 d2 d d' order order' l u w w' :
  store_inv w →
  heap w !! l = Some u → unstored (Some l) w →
  nextID (server w) + 1 ≤ GoInt.int_max →
  Z.of_nat (size (users (server w))) + 1 ≤ GoInt.int_max →
  createUser d1 d2 (Some l) w = Some (Some l, w') →
  range_order (users (server w)) order →
  range_order (users (server w')) order' →
  ∃ st st' w1 w2,
    getStats d order w = Some (st, w1) ∧
    getStats d' order' w' = Some (st', w2) ∧
    TotalUsers st' = TotalUsers st + 1 ∧
    (Status u = "" ∨ Status u = "active" →
       ActiveUsers st' = ActiveUsers st + 1 ∧ InactiveUsers st' = InactiveUsers st) ∧
    (Status u ≠ "" → Status u ≠ "active" →
       ActiveUsers st' = ActiveUsers st ∧ InactiveUsers st' = InactiveUsers st + 1).
Proof.
  intros Hinv Hl Hfresh Hb Hsize Hc Ho Ho'.
  destruct (createUser_fresh_step d1 d2 l u w Hinv Hl Hfresh Hb)
    as (w'' & Hc' & Hu & Hn & Hh & Hinv' & _).
  rewrite Hc in Hc'. injection Hc' as <-.
  pose proof Hinv as (Hv & Hids & [_ Hkeys]). pose proof Hinv' as (Hv' & _).
  assert (users (server w) !! nextID (server w) = None) as Hfree.
  { destruct (users (server w) !! nextID (server w)) as [p|] eqn:E; [|done].
    specialize (Hkeys _ (ex_intro _ p E)). lia. }
  assert (size (users (server w')) = S (size (users (server w)))) as Hsz
    by (rewrite Hu; by apply map_size_insert_None).
  eexists _, _, _, _.
  split; [apply getStats_eq; [done|unfold len_fits; lia|done]|].
  split; [apply getStats_eq; [done|unfold len_fits; lia|done]|].
  cbn [TotalUsers ActiveUsers InactiveUsers].
  assert (map_to_list (users (server w'))
          ≡ₚ (nextID (server w), Some l) :: map_to_list (users (server w))) as Hperm
    by (rewrite Hu; by apply map_to_list_insert).
  assert (Forall (λ kv, status_of (heap w') kv = status_of (heap w) kv)
                 (map_to_list (users (server w)))) as Hext.
  { apply Forall_forall. intros [k p] Hin. apply elem_of_map_to_list in Hin.
    unfold status_of. cbn [snd]. rewrite Hh. rewrite deref_insert_ne; [done|].
    intros ->. by apply (Hfresh k). }
  destruct (count_active_ext _ _ _ Hext) as [Ha Hi].
  assert (status_of (heap w') (nextID (server w), Some l)
          = Some (if decide (Status u = "") then "active" else Status u)) as Hnew.
  { unfold status_of. cbn [snd]. rewrite Hh, deref_Some, lookup_insert_eq. done. }
  unfold count_active, count_other in *. rewrite !Hperm, !filter_cons, Hnew.
  split; [lia|]. split.
  - intros Hact.
    rewrite decide_True by (destruct Hact as [->| ->]; by repeat case_decide).
    rewrite decide_False by (intros Hx; apply Hx; destruct Hact as [->| ->];
                             by repeat case_decide).
    cbn [length]. lia.
  - intros He Hna.
    rewrite decide_False by (rewrite decide_False by done; congruence).
    rewrite decide_True by (rewrite decide_False by done; congruence).
    cbn [length]. lia.
Qed.

Lemma getStats_after_createUser_witness :
  ∃ st st' w' w1 w2,
    createUser 1 1 (Some Demo.dave.1) Demo.dave.2 = Some (Some Demo.dave.1, w') ∧
    getStats 1 (map_to_list (users (server Demo.dave.2))) Demo.dave.2
      = Some (st, w1) ∧
    getStats 1 (map_to_list (users (server w'))) w' = Some (st', w2) ∧
    TotalUsers st' = TotalUsers st + 1 ∧
    ActiveUsers st' = ActiveUsers st + 1 ∧
    InactiveUsers st' = InactiveUsers st.
Proof.
  assert (store_inv Demo.dave.2) as Hinv
    by (apply store_invb_sound; vm_compute; reflexivity).
  assert (heap Demo.dave.2 !! Demo.dave.1
          = Some (mkUser 77 "Dave" "dave@company.com" "" 0 0)) as Hl
    by (vm_compute; reflexivity).
  assert (unstored (Some Demo.dave.1) Demo.dave.2) as Hf
    by (apply unstoredb_sound; vm_compute; reflexivity).
  assert (nextID (server Demo.dave.2) + 1 ≤ GoInt.int_max) as Hb
    by (vm_compute; intros H; discriminate H).
  assert (Z.of_nat (size (users (server Demo.dave.2))) + 1 ≤ GoInt.int_max) as Hs
    by (vm_compute; intros H; discriminate H).
  assert (∃ w', createUser 1 1 (Some Demo.dave.1) Demo.dave.2
                = Some (Some Demo.dave.1, w')) as [w' Hc]
    by (eexists; vm_compute; reflexivity).
  destruct (getStats_after_createUser 1 1 1 1 _ _ _ _ _ w' Hinv Hl Hf Hb Hs Hc
              (range_order_canonical _) (range_order_canonical _))
    as (st & st' & w1 & w2 & H1 & H2 & Ht & Hact & _).
  exists st, st', w', w1, w2.
  split; [exact Hc|]. split; [exact H1|]. split; [exact H2|].
  split; [exact Ht|]. exact (Hact (or_introl eq_refl)).
Defined.

(** ** Smaller fragments *)

Lemma wrap_add_l a b : GoInt.wrap (GoInt.wrap a + b) = GoInt.wrap (a + b).
Proof.
  unfold GoInt.wrap. f_equal.
  replace ((a + 2 ^ 63) `mod` 2 ^ 64 - 2 ^ 63 + b + 2 ^ 63)
    with ((a + 2 ^ 63) `mod` 2 ^ 64 + b) by lia.
  rewrite Zplus_mod_idemp_l. f_equal. lia.
Qed.

Lemma wrap_in_range z :
  GoInt.int_min ≤ z ≤ GoInt.int_max → GoInt.wrap z = z.
Proof.
  unfold GoInt.wrap, GoInt.int_min, GoInt.int_max. intros H.
  rewrite Z.mod_small; lia.
Qed.

Lemma processNumbers_from acc numbers :
  foldl (λ sum num, GoInt.wrap (sum + num)) (GoInt.wrap acc) numbers
  = GoInt.wrap (acc + foldr Z.add 0 numbers).
Proof.
  revert acc. induction numbers as [|n numbers IH]; intros acc; simpl.
  - f_equal. lia.
  - rewrite wrap_add_l, IH. f_equal. lia.
Qed.

(** X14.  [processNumbers] returns the sum of the numbers reduced to a
    64-bit two's-complement [int]: it is the exact sum whenever that
    fits an [int], and in every case it does not depend on the order of
    the numbers, overflow in the middle of the loop included. *)
Theorem processNumbers_sum numbers :
  processNumbers numbers = GoInt.wrap (foldr Z.add 0 numbers) ∧
  (GoInt.int_min ≤ foldr Z.add 0 numbers ≤ GoInt.int_max →
     processNumbers numbers = foldr Z.add 0 numbers) ∧
  (∀ numbers', numbers ≡ₚ numbers' →
     processNumbers numbers' = processNumbers numbers).
Proof.
  assert (∀ l, processNumbers l = GoInt.wrap (foldr Z.add 0 l)) as Hsum.
  { intros l. unfold processNumbers.
    change 0 with (GoInt.wrap 0) at 1. by rewrite processNumbers_from. }
  split; [apply Hsum|]. split.
  - intros Hr. rewrite Hsum. by apply wrap_in_range.
  - intros numbers' Hp. rewrite !Hsum. f_equal.
    induction Hp; simpl; lia.
Qed.

(** X15.  [NewServer] with options written with [WithHost] and
    [WithPort]: the host is the one of the last [WithHost] and
    ["localhost"] when there is none, the port is the one of the last
    [WithPort] and 8080 when there is none, and the timeout is always
    the default of thirty seconds. *)
Theorem NewServer_last_option_wins (choices : list (string + Z)) :
  OptionPattern.host
    (OptionPattern.NewServer (OptionPattern.of_choice <$> choices))
  = default "localhost" (last (OptionPattern.hosts choices)) ∧
  OptionPattern.port
    (OptionPattern.NewServer (OptionPattern.of_choice <$> choices))
  = default 8080 (last (OptionPattern.ports choices)) ∧
  OptionPattern.timeout
    (OptionPattern.NewServer (OptionPattern.of_choice <$> choices))
  = 30 * GoTime.Second.
Proof.
  unfold OptionPattern.NewServer, OptionPattern.hosts, OptionPattern.ports.
  induction choices as [|c choices IH] using rev_ind; [done|].
  rewrite fmap_app, foldl_app, !omap_app. cbn [fmap list_fmap foldl omap list_omap].
  destruct IH as (Hh & Hp & Ht).
  destruct c as [h|p]; cbn [OptionPattern.of_choice OptionPattern.WithHost
    OptionPattern.WithPort OptionPattern.host OptionPattern.port
    OptionPattern.timeout].
  - rewrite app_nil_r, last_snoc. done.
  - rewrite app_nil_r, last_snoc. done.
Qed.

(** X16.  [Validate] accepts a configuration exactly when the server
    port is between 1 and 65535, the database user name is not empty and
    the log level is one of ["debug"], ["info"], ["warn"], ["error"];
    the checks are made in that order, so a bad port is the error that
    is reported whatever else is wrong. *)
Theorem Validate_accepts_iff (c : ConfigMgmt.Config) :
  (ConfigMgmt.Validate c = None ↔
     1 ≤ ConfigMgmt.Port (ConfigMgmt.Server c) ≤ 65535 ∧
     ConfigMgmt.Username (ConfigMgmt.Db c) ≠ "" ∧
     ConfigMgmt.Level (ConfigMgmt.Logging c) ∈ ["debug"; "info"; "warn"; "error"]) ∧
  (¬ 1 ≤ ConfigMgmt.Port (ConfigMgmt.Server c) ≤ 65535 →
     ConfigMgmt.Validate c
     = Some (ConfigMgmt.InvalidServerPort (ConfigMgmt.Port (ConfigMgmt.Server c)))).
Proof.
  unfold ConfigMgmt.Validate.
  assert (default false (ConfigMgmt.validLevels
                           !! ConfigMgmt.Level (ConfigMgmt.Logging c)) = true
          ↔ ConfigMgmt.Level (ConfigMgmt.Logging c)
              ∈ ["debug"; "info"; "warn"; "error"]) as Hlevel.
  { unfold ConfigMgmt.validLevels.
    generalize (ConfigMgmt.Level (ConfigMgmt.Logging c)). intros level.
    rewrite !lookup_insert, lookup_empty. split.
    - intros Hx. apply list_elem_of_In.
      repeat case_decide; subst; simpl in Hx; try done; simpl; tauto.
    - intros Hx. apply list_elem_of_In in Hx. simpl in Hx.
      repeat case_decide; simpl; try done. exfalso. intuition congruence. }
  split.
  - destruct (decide (ConfigMgmt.Port (ConfigMgmt.Server c) ≤ 0
                      ∨ ConfigMgmt.Port (ConfigMgmt.Server c) > 65535)) as [Hp|Hp].
    { split; [done|]. intros (? & _). lia. }
    destruct (decide (ConfigMgmt.Username (ConfigMgmt.Db c) = "")) as [Hu|Hu].
    { split; [done|]. by intros (_ & ? & _). }
    rewrite <- Hlevel.
    destruct (default false _); simpl; split; try done.
    + intros _. split; [lia|done].
    + by intros (_ & _ & ?).
  - intros Hp. rewrite decide_True by lia. done.
Qed.
